(** * native-hdr.c: the HDR data-space shim

    A shallow embedding of
    [Java_com_pgeneratorplus_android_hdr_HdrEglHelper_nativeSetBuffersDataSpace]
    (app/src/main/cpp/native-hdr.c) and the properties of its one-shot symbol
    resolver, its acquire/release pairing and its status codes.

    The C function talks to the platform through five entry points
    ([dlsym], [dlopen], [ANativeWindow_fromSurface], the resolved function
    pointer, [ANativeWindow_release]) and the logger.  The platform is a
    record of oracles, one per entry point; every platform call the function
    makes is recorded as an event, so that "was invoked", "exactly once" and
    "before" are statements about the list of events of a call.  The two
    function-level statics [pfn] and [resolved] are the only state. *)

From Stdlib Require Import ZArith String List Bool Lia PeanoNat.
Import ListNotations.
Local Open Scope Z_scope.

(** ** Machine data *)

(** [int32_t] and [jint] values are integers in the signed 32-bit range. *)
Definition in_int32 (z : Z) : Prop := -2147483648 <= z <= 2147483647.

(** The conversion to [int32_t], with its wrap-around. *)
Definition to_int32 (z : Z) : Z := (z + 2147483648) mod 4294967296 - 2147483648.

(** Pointers ([void *], [ANativeWindow *], [jobject], function pointers) are
    addresses; [NULL] is address 0 and [!p] tests for it. *)
Definition ptr := Z.
Definition NULL : ptr := 0.
Definition is_null (p : ptr) : bool := p =? NULL.

(** The first argument of [dlsym]: the pseudo-handle [RTLD_DEFAULT] or a
    handle returned by [dlopen]. *)
Inductive dl_handle :=
| RTLD_DEFAULT
| LibHandle (lib : ptr).

Inductive log_priority := ANDROID_LOG_INFO | ANDROID_LOG_WARN.

(** #define TAG "NativeHdr" *)
Definition TAG : string := "NativeHdr".

(** The data-space tags the header comment names. *)
Definition BT2020_PQ : Z := 0x09C60000.
Definition BT2020_HLG : Z := 0x09460000.

(** ** The platform *)

(** One oracle per platform entry point the function calls.  [call_fn f w d]
    is what running the code at address [f] on window [w] and data space [d]
    returns; [RTLD_LAZY] is the flag constant of <dlfcn.h>. *)
Record Platform := {
  dlsym : dl_handle -> string -> ptr;
  dlopen : string -> Z -> ptr;
  RTLD_LAZY : Z;
  ANativeWindow_fromSurface : ptr -> ptr -> ptr;
  call_fn : ptr -> ptr -> Z -> Z
}.

(** What the platform sees of a call, in order. *)
Inductive Event :=
| EvDlsym (handle : dl_handle) (symbol : string) (ret : ptr)
| EvDlopen (file : string) (flags : Z) (ret : ptr)
| EvLog (prio : log_priority) (tag : string) (fmt : string) (args : list Z)
| EvFromSurface (env surface : ptr) (ret : ptr)
| EvCall (fn window : ptr) (dataSpace : Z) (ret : Z)
| EvRelease (window : ptr).

(** ** State and effects *)

(** The two function-level statics (lines 36-37). *)
Record Statics := { pfn : ptr; resolved : Z }.

(** static PFN_setBuffersDataSpace pfn = NULL; static int resolved = 0; *)
Definition initial : Statics := {| pfn := NULL; resolved := 0 |}.

(** A computation reads and writes the statics and emits events. *)
Definition M (A : Type) : Type := Statics -> A * Statics * list Event.

Definition ret {A} (a : A) : M A := fun s => (a, s, []).

Definition bind {A B} (m : M A) (k : A -> M B) : M B :=
  fun s =>
    let '(a, s1, t1) := m s in
    let '(b, s2, t2) := k a s1 in
    (b, s2, t1 ++ t2).

Declare Scope shim_scope.
Delimit Scope shim_scope with shim.
Notation "x <- m ;; k" := (bind m (fun x => k))
  (at level 61, m at next level, right associativity) : shim_scope.
Notation "m ;; k" := (bind m (fun _ => k))
  (at level 61, right associativity) : shim_scope.
Local Open Scope shim_scope.

Definition emit (e : Event) : M unit := fun s => (tt, s, [e]).

Definition load_pfn : M ptr := fun s => (pfn s, s, []).
Definition store_pfn (f : ptr) : M unit :=
  fun s => (tt, {| pfn := f; resolved := resolved s |}, []).
Definition load_resolved : M Z := fun s => (resolved s, s, []).
Definition store_resolved (v : Z) : M unit :=
  fun s => (tt, {| pfn := pfn s; resolved := v |}, []).

(** The platform calls, each recorded with what it returned. *)
Definition call_dlsym (P : Platform) (h : dl_handle) (name : string) : M ptr :=
  let r := dlsym P h name in emit (EvDlsym h name r) ;; ret r.

Definition call_dlopen (P : Platform) (file : string) (flags : Z) : M ptr :=
  let r := dlopen P file flags in emit (EvDlopen file flags r) ;; ret r.

Definition call_fromSurface (P : Platform) (env surface : ptr) : M ptr :=
  let r := ANativeWindow_fromSurface P env surface in
  emit (EvFromSurface env surface r) ;; ret r.

Definition call_through (P : Platform) (f window : ptr) (d : Z) : M Z :=
  let r := call_fn P f window d in emit (EvCall f window d r) ;; ret r.

Definition ANativeWindow_release (window : ptr) : M unit :=
  emit (EvRelease window).

(** #define LOGI(...) and #define LOGW(...) *)
Definition LOGI (fmt : string) (args : list Z) : M unit :=
  emit (EvLog ANDROID_LOG_INFO TAG fmt args).
Definition LOGW (fmt : string) (args : list Z) : M unit :=
  emit (EvLog ANDROID_LOG_WARN TAG fmt args).

(** ** The function *)

Definition symbol_name : string := "ANativeWindow_setBuffersDataSpace".
Definition library_name : string := "libnativewindow.so".

(** Lines 38-60: the guarded block that resolves the symbol. *)
Definition resolve_symbol (P : Platform) : M unit :=
  r <- load_resolved ;;
  if r =? 0 then
    store_resolved 1 ;;
    f <- call_dlsym P RTLD_DEFAULT symbol_name ;;
    store_pfn f ;;
    f <- load_pfn ;;
    (if is_null f then
       lib <- call_dlopen P library_name (RTLD_LAZY P) ;;
       if is_null lib then ret tt
       else
         f <- call_dlsym P (LibHandle lib) symbol_name ;;
         store_pfn f ;;
         f <- load_pfn ;;
         if is_null f then ret tt
         else LOGI "Resolved via dlopen(libnativewindow.so)" []
     else ret tt) ;;
    f <- load_pfn ;;
    if is_null f
    then LOGW "ANativeWindow_setBuffersDataSpace not available (API < 28?)" []
    else LOGI "ANativeWindow_setBuffersDataSpace resolved" []
  else ret tt.

(** Lines 62-81: the dispatch proper. *)
Definition dispatch (P : Platform) (env surface : ptr) (dataSpace : Z) : M Z :=
  f <- load_pfn ;;
  if is_null f then ret (-2)
  else
    window <- call_fromSurface P env surface ;;
    if is_null window then
      LOGW "Failed to get ANativeWindow from Surface" [] ;;
      ret (-1)
    else
      f <- load_pfn ;;
      result <- call_through P f window (to_int32 dataSpace) ;;
      ANativeWindow_release window ;;
      (if result =? 0
       then LOGI "Set buffer data space to 0x%08x via NDK" [dataSpace]
       else LOGW "ANativeWindow_setBuffersDataSpace(0x%08x) failed: %d"
                 [dataSpace; result]) ;;
      ret result.

(** The exported entry point; [thiz] is not used by the body. *)
Definition Java_com_pgeneratorplus_android_hdr_HdrEglHelper_nativeSetBuffersDataSpace
    (P : Platform) (env thiz surface : ptr) (dataSpace : Z) : M Z :=
  resolve_symbol P ;;
  dispatch P env surface dataSpace.

Definition nativeSetBuffersDataSpace :=
  Java_com_pgeneratorplus_android_hdr_HdrEglHelper_nativeSetBuffersDataSpace.

(** The three components of a finished computation. *)
Definition status_of {A} (r : A * Statics * list Event) : A := fst (fst r).
Definition statics_of {A} (r : A * Statics * list Event) : Statics := snd (fst r).
Definition events_of {A} (r : A * Statics * list Event) : list Event := snd r.

Arguments status_of {A} !r /.
Arguments statics_of {A} !r /.
Arguments events_of {A} !r /.

(** ** Sequences of calls in one process *)

(** One call: the platform as it is when the call is made, and the JNI
    arguments.  The platform may differ from call to call (a symbol absent
    at one call may be present at a later one). *)
Record Call := {
  call_platform : Platform;
  call_env : ptr;
  call_thiz : ptr;
  call_surface : ptr;
  call_dataSpace : Z
}.

Definition run_call (c : Call) : M Z :=
  nativeSetBuffersDataSpace (call_platform c) (call_env c) (call_thiz c)
    (call_surface c) (call_dataSpace c).

(** The calls of a process, in order: the status and the events of each,
    and the statics at the end. *)
Fixpoint run_calls (cs : list Call) (s : Statics)
  : list (Z * list Event) * Statics :=
  match cs with
  | [] => ([], s)
  | c :: cs' =>
      let '(r, s1, t) := run_call c s in
      let '(rs, s2) := run_calls cs' s1 in
      ((r, t) :: rs, s2)
  end.

(** The statics after each call, in order. *)
Fixpoint statics_trail (cs : list Call) (s : Statics) : list Statics :=
  match cs with
  | [] => []
  | c :: cs' => let s1 := statics_of (run_call c s) in s1 :: statics_trail cs' s1
  end.

(** ** Observations *)

(** The statics read as the three-state resolver of the data model. *)
Inductive ResolvedSymbol :=
| unresolved
| available (fn : ptr)
| unavailable.

Definition resolver_state (s : Statics) : ResolvedSymbol :=
  if resolved s =? 0 then unresolved
  else if is_null (pfn s) then unavailable
  else available (pfn s).

Definition is_setter_call (e : Event) : bool :=
  match e with EvCall _ _ _ _ => true | _ => false end.

Definition is_acquire (e : Event) : bool :=
  match e with EvFromSurface _ _ _ => true | _ => false end.

Definition is_release (e : Event) : bool :=
  match e with EvRelease _ => true | _ => false end.

Definition is_release_of (w : ptr) (e : Event) : bool :=
  match e with EvRelease w' => w' =? w | _ => false end.

Definition is_default_lookup (e : Event) : bool :=
  match e with EvDlsym RTLD_DEFAULT _ _ => true | _ => false end.

Definition is_library_lookup (e : Event) : bool :=
  match e with EvDlsym (LibHandle _) _ _ => true | _ => false end.

Definition is_library_load (e : Event) : bool :=
  match e with EvDlopen _ _ _ => true | _ => false end.

Definition is_lookup_work (e : Event) : bool :=
  match e with EvDlsym _ _ _ | EvDlopen _ _ _ => true | _ => false end.

Definition is_log (e : Event) : bool :=
  match e with EvLog _ _ _ _ => true | _ => false end.

Definition count (p : Event -> bool) (t : list Event) : nat :=
  length (filter p t).

(** All the events of a run of calls, in order. *)
Definition all_events (rs : list (Z * list Event)) : list Event :=
  concat (map snd rs).

(** No event dereferences a null pointer: a call goes through a non-null
    function pointer on a non-null window, a release is of a non-null
    window. *)
Definition null_free (e : Event) : Prop :=
  match e with
  | EvCall f w _ _ => f <> NULL /\ w <> NULL
  | EvRelease w => w <> NULL
  | _ => True
  end.

(** What the two-step lookup finds on platform [P]. *)
Definition lookup_result (P : Platform) : ptr :=
  let d := dlsym P RTLD_DEFAULT symbol_name in
  if is_null d then
    let lib := dlopen P library_name (RTLD_LAZY P) in
    if is_null lib then NULL else dlsym P (LibHandle lib) symbol_name
  else d.

(** The events the claimed two-step order prescribes for a resolution on
    platform [P]: the default-scope lookup; on a miss the library load; on a
    successful load the lookup inside the library; then the log lines.  It
    is compared with what [resolve_symbol] emits. *)
Definition two_step_events (P : Platform) : list Event :=
  let d := dlsym P RTLD_DEFAULT symbol_name in
  EvDlsym RTLD_DEFAULT symbol_name d ::
  if is_null d then
    let lib := dlopen P library_name (RTLD_LAZY P) in
    EvDlopen library_name (RTLD_LAZY P) lib ::
    if is_null lib then
      [EvLog ANDROID_LOG_WARN TAG
         "ANativeWindow_setBuffersDataSpace not available (API < 28?)" []]
    else
      let l := dlsym P (LibHandle lib) symbol_name in
      EvDlsym (LibHandle lib) symbol_name l ::
      if is_null l then
        [EvLog ANDROID_LOG_WARN TAG
           "ANativeWindow_setBuffersDataSpace not available (API < 28?)" []]
      else
        [EvLog ANDROID_LOG_INFO TAG "Resolved via dlopen(libnativewindow.so)" [];
         EvLog ANDROID_LOG_INFO TAG "ANativeWindow_setBuffersDataSpace resolved" []]
  else
    [EvLog ANDROID_LOG_INFO TAG "ANativeWindow_setBuffersDataSpace resolved" []].

(** The log line of lines 75-79. *)
Definition result_log (dataSpace result : Z) : Event :=
  if result =? 0
  then EvLog ANDROID_LOG_INFO TAG "Set buffer data space to 0x%08x via NDK"
         [dataSpace]
  else EvLog ANDROID_LOG_WARN TAG
         "ANativeWindow_setBuffersDataSpace(0x%08x) failed: %d"
         [dataSpace; result].

(** The statics as the resolver block leaves them. *)
Definition after_resolve (P : Platform) (s : Statics) : Statics :=
  statics_of (resolve_symbol P s).

(** Modelled from the spec: the platform's reference count on native
    windows, which is not code of this repository.  Section 4.2: acquiring a
    handle "increments its internal reference count" when it returns
    non-null, a release "drops exactly one reference"; nothing else touches
    the count (the stub of section 8 "counts acquire/release"). *)
Definition RefCounts := ptr -> Z.

Definition adjust (rc : RefCounts) (w : ptr) (d : Z) : RefCounts :=
  fun x => if x =? w then rc x + d else rc x.

Definition count_reference (rc : RefCounts) (e : Event) : RefCounts :=
  match e with
  | EvFromSurface _ _ w => if is_null w then rc else adjust rc w 1
  | EvRelease w => adjust rc w (-1)
  | _ => rc
  end.

Definition refcounts_after (rc : RefCounts) (t : list Event) : RefCounts :=
  fold_left count_reference t rc.

(** ** The log lines *)


(** The three lines of the dispatch (lines 68, 76, 78). *)
Definition no_window_message : string :=
  "Failed to get ANativeWindow from Surface".
Definition success_message : string :=
  "Set buffer data space to 0x%08x via NDK".
Definition failure_message : string :=
  "ANativeWindow_setBuffersDataSpace(0x%08x) failed: %d".


Definition is_warning (e : Event) : bool :=
  match e with EvLog ANDROID_LOG_WARN _ _ _ => true | _ => false end.

Definition is_info (e : Event) : bool :=
  match e with EvLog ANDROID_LOG_INFO _ _ _ => true | _ => false end.

(** An event the dispatch can emit: a surface operation or one of its
    three log lines. *)
Definition is_dispatch_event (e : Event) : bool :=
  match e with
  | EvFromSurface _ _ _ | EvCall _ _ _ _ | EvRelease _ => true
  | EvLog _ _ f _ =>
      String.eqb f no_window_message || String.eqb f success_message
      || String.eqb f failure_message
  | _ => false
  end.

(** Every setter call among the events goes through the pointer [p]. *)
Definition calls_through (p : ptr) (e : Event) : Prop :=
  match e with EvCall f _ _ _ => f = p | _ => True end.

(** ** Platform stubs *)

(** A stubbed platform for concrete runs: the symbol is at [in_default] in
    the default scope (NULL: absent), the library loads at [lib] (NULL: the
    load fails) and has the symbol at [in_lib]; a null surface has no
    window and every other surface has window 512; the code behind every
    function pointer answers [setter dataSpace]. *)
Definition stub_platform (in_default lib in_lib : ptr) (setter : Z -> Z)
  : Platform :=
  {| dlsym := fun h _ =>
       match h with RTLD_DEFAULT => in_default | LibHandle _ => in_lib end;
     dlopen := fun _ _ => lib;
     RTLD_LAZY := 1;
     ANativeWindow_fromSurface := fun _ surface =>
       if is_null surface then NULL else 512;
     call_fn := fun _ _ d => setter d |}.

(** Symbol present in the default scope, at address 4096. *)
Definition symbol_present (setter : Z -> Z) : Platform :=
  stub_platform 4096 NULL NULL setter.

(** Symbol absent everywhere. *)
Definition symbol_absent : Platform :=
  stub_platform NULL NULL NULL (fun _ => 0).

(** Symbol only in the library, which loads at 64, at address 8192. *)
Definition symbol_in_library (setter : Z -> Z) : Platform :=
  stub_platform NULL 64 8192 setter.

(** A setter that accepts the two HDR tags and rejects the rest with
    -EINVAL. *)
Definition hdr_only (d : Z) : Z :=
  if (d =? BT2020_PQ) || (d =? BT2020_HLG) then 0 else -22.

(** Symbol absent at call 1, present from call 2 on; a valid surface. *)
Definition becomes_present : list Call :=
  [ {| call_platform := symbol_absent; call_env := 1; call_thiz := 2;
       call_surface := 3; call_dataSpace := BT2020_PQ |};
    {| call_platform := symbol_present (fun _ => 0); call_env := 1;
       call_thiz := 2; call_surface := 3; call_dataSpace := BT2020_PQ |} ].

(** ** Concurrent callers *)

(** The body has no lock, no atomic and no fence: a call from another
    thread runs the same statements on the same two statics.  The machine
    below interleaves K such calls.  One step of a thread is one access to a
    static or one platform call, together with the thread-local tests and
    log lines that follow it; a program point is named after its source
    line.  Every interleaving of these steps is an execution under the
    strongest memory model C compilers and processors offer (sequential
    consistency), so what fails here fails under every weaker one.  A
    call through a null pointer at line 72 does not return: the thread
    stays at that point and the process, dead, takes no further step. *)
Module Threads.

Inductive pc :=
| L38                              (* if (!resolved): load [resolved] *)
| L39                              (* resolved = 1 *)
| L41                              (* call dlsym(RTLD_DEFAULT, ...) *)
| L41_store (f : ptr)              (* pfn = <its result> *)
| L44                              (* if (!pfn): load [pfn] *)
| L45                              (* lib = dlopen(...); if (lib) *)
| L47 (lib : ptr)                  (* call dlsym(lib, ...) *)
| L47_store (f : ptr)              (* pfn = <its result> *)
| L49                              (* if (pfn) LOGI: load [pfn] *)
| L55                              (* if (pfn) LOGI else LOGW: load [pfn] *)
| L62                              (* if (!pfn) return -2: load [pfn] *)
| L66                              (* window = fromSurface; NULL: return -1 *)
| L72 (window : ptr)               (* load [pfn] for the call *)
| L72_call (f window : ptr)        (* result = f(window, dataSpace) *)
| L73 (window : ptr) (result : Z)  (* ANativeWindow_release(window) *)
| L75 (result : Z)                 (* log the result; return result *)
| Returned (status : Z).

(** A thread inside one call: where it is, its arguments, the value of
    [pfn] it read at line 62 (none before), and the events of its call. *)
Record Thread := {
  th_pc : pc;
  th_env : ptr;
  th_surface : ptr;
  th_dataSpace : Z;
  th_seen : option ptr;
  th_events : list Event
}.

Definition move (t : Thread) (l : pc) (evs : list Event) : Thread :=
  {| th_pc := l; th_env := th_env t; th_surface := th_surface t;
     th_dataSpace := th_dataSpace t; th_seen := th_seen t;
     th_events := th_events t ++ evs |}.

Definition see (t : Thread) (f : ptr) : Thread :=
  {| th_pc := th_pc t; th_env := th_env t; th_surface := th_surface t;
     th_dataSpace := th_dataSpace t; th_seen := Some f;
     th_events := th_events t |}.

Definition info (fmt : string) (args : list Z) : Event :=
  EvLog ANDROID_LOG_INFO TAG fmt args.
Definition warn (fmt : string) (args : list Z) : Event :=
  EvLog ANDROID_LOG_WARN TAG fmt args.

(** One step of thread [t] on the statics [s].  A call through a null
    pointer (line 72 with a null [f]) does not return: the thread gets no
    further. *)
Definition thread_step (P : Platform) (t : Thread) (s : Statics)
  : Thread * Statics :=
  match th_pc t with
  | L38 => (move t (if resolved s =? 0 then L39 else L62) [], s)
  | L39 => (move t L41 [], {| pfn := pfn s; resolved := 1 |})
  | L41 =>
      let f := dlsym P RTLD_DEFAULT symbol_name in
      (move t (L41_store f) [EvDlsym RTLD_DEFAULT symbol_name f], s)
  | L41_store f => (move t L44 [], {| pfn := f; resolved := resolved s |})
  | L44 => (move t (if is_null (pfn s) then L45 else L55) [], s)
  | L45 =>
      let lib := dlopen P library_name (RTLD_LAZY P) in
      (move t (if is_null lib then L55 else L47 lib)
         [EvDlopen library_name (RTLD_LAZY P) lib], s)
  | L47 lib =>
      let f := dlsym P (LibHandle lib) symbol_name in
      (move t (L47_store f) [EvDlsym (LibHandle lib) symbol_name f], s)
  | L47_store f => (move t L49 [], {| pfn := f; resolved := resolved s |})
  | L49 =>
      (move t L55
         (if is_null (pfn s) then []
          else [info "Resolved via dlopen(libnativewindow.so)" []]), s)
  | L55 =>
      (move t L62
         [if is_null (pfn s)
          then warn "ANativeWindow_setBuffersDataSpace not available (API < 28?)" []
          else info "ANativeWindow_setBuffersDataSpace resolved" []], s)
  | L62 =>
      (move (see t (pfn s))
         (if is_null (pfn s) then Returned (-2) else L66) [], s)
  | L66 =>
      let w := ANativeWindow_fromSurface P (th_env t) (th_surface t) in
      (if is_null w
       then move t (Returned (-1))
              [EvFromSurface (th_env t) (th_surface t) w;
               warn "Failed to get ANativeWindow from Surface" []]
       else move t (L72 w) [EvFromSurface (th_env t) (th_surface t) w], s)
  | L72 w => (move t (L72_call (pfn s) w) [], s)
  | L72_call f w =>
      if is_null f then (t, s)
      else
        let d := to_int32 (th_dataSpace t) in
        let r := call_fn P f w d in
        (move t (L73 w r) [EvCall f w d r], s)
  | L73 w r => (move t (L75 r) [EvRelease w], s)
  | L75 r =>
      (move t (Returned r)
         [if r =? 0
          then info "Set buffer data space to 0x%08x via NDK" [th_dataSpace t]
          else warn "ANativeWindow_setBuffersDataSpace(0x%08x) failed: %d"
                    [th_dataSpace t; r]], s)
  | Returned _ => (t, s)
  end.

(** The process: the statics and the threads inside the call. *)
Record Config := { shared : Statics; threads : list Thread }.

Fixpoint set_nth {A} (i : nat) (x : A) (l : list A) : list A :=
  match l, i with
  | [], _ => []
  | _ :: l', O => x :: l'
  | y :: l', S i' => y :: set_nth i' x l'
  end.

(** A thread that is calling through a null pointer: the jump to address
    0 at line 72. *)
Definition crashed (t : Thread) : bool :=
  match th_pc t with
  | L72_call f _ => is_null f
  | _ => false
  end.

(** The call through a null pointer kills the process, and with it every
    thread. *)
Definition dead (c : Config) : bool := existsb crashed (threads c).

(** Thread [i] takes one step; a thread that is not there does nothing,
    and in a dead process nothing steps. *)
Definition step (P : Platform) (i : nat) (c : Config) : Config :=
  if dead c then c
  else
    match nth_error (threads c) i with
    | None => c
    | Some t =>
        let '(t', s') := thread_step P t (shared c) in
        {| shared := s'; threads := set_nth i t' (threads c) |}
    end.

(** A schedule names the thread that steps next, step after step. *)
Fixpoint run (P : Platform) (schedule : list nat) (c : Config) : Config :=
  match schedule with
  | [] => c
  | i :: rest => run P rest (step P i c)
  end.

Definition spawn (args : ptr * ptr * Z) : Thread :=
  let '(env, surface, dataSpace) := args in
  {| th_pc := L38; th_env := env; th_surface := surface;
     th_dataSpace := dataSpace; th_seen := None; th_events := [] |}.

(** A process in which the given calls are about to start. *)
Definition start (s : Statics) (calls : list (ptr * ptr * Z)) : Config :=
  {| shared := s; threads := map spawn calls |}.

Definition returned (t : Thread) : bool :=
  match th_pc t with Returned _ => true | _ => false end.

Definition all_returned (c : Config) : bool := forallb returned (threads c).

Definition status (t : Thread) : option Z :=
  match th_pc t with Returned r => Some r | _ => None end.

(** The number of default-scope symbol lookups the threads performed. *)
Definition lookups (c : Config) : nat :=
  list_sum (map (fun t => count is_default_lookup (th_events t)) (threads c)).

(** The resolver outcome a thread acted on: what it read at line 62. *)
Definition observed (t : Thread) : option ResolvedSymbol :=
  match th_seen t with
  | None => None
  | Some f => Some (if is_null f then unavailable else available f)
  end.

(** All threads acted on the same outcome, and it is the one the statics
    hold. *)
Definition same_outcome (c : Config) : Prop :=
  forall t, In t (threads c) -> observed t = Some (resolver_state (shared c)).

(** *** What every interleaving maintains *)

Definition lookups_of (t : Thread) : nat :=
  count is_default_lookup (th_events t).

(** What holds of a thread at each program point: how many default-scope
    lookups it has made, that the flag is set once it is past line 39, and
    what its locals hold. *)
Definition pc_inv (P : Platform) (s : Statics) (t : Thread) : Prop :=
  let d := dlsym P RTLD_DEFAULT symbol_name in
  let lib := dlopen P library_name (RTLD_LAZY P) in
  let l := dlsym P (LibHandle lib) symbol_name in
  match th_pc t with
  | L38 | L39 => lookups_of t = 0%nat
  | L41 => lookups_of t = 0%nat /\ resolved s = 1
  | L41_store f => lookups_of t = 1%nat /\ resolved s = 1 /\ f = d
  | L44 =>
      lookups_of t = 1%nat /\ resolved s = 1 /\ (d <> NULL -> pfn s <> NULL)
  | L45 => lookups_of t = 1%nat /\ resolved s = 1 /\ d = NULL
  | L47 lb =>
      lookups_of t = 1%nat /\ resolved s = 1 /\ d = NULL /\
      lb = lib /\ lib <> NULL
  | L47_store f =>
      lookups_of t = 1%nat /\ resolved s = 1 /\ d = NULL /\
      lib <> NULL /\ f = l
  | _ => (lookups_of t <= 1)%nat /\ resolved s = 1
  end.

Definition past_line_62 (t : Thread) : bool :=
  match th_pc t with
  | L66 | L72 _ | L72_call _ _ | L73 _ _ | L75 _ | Returned _ => true
  | _ => false
  end.

(** What a thread has read at line 62 once it is past it: a null pointer,
    or what the two-step lookup finds. *)
Definition seen_inv (P : Platform) (t : Thread) : Prop :=
  match th_seen t with
  | None => past_line_62 t = false
  | Some f => f = NULL \/ f = lookup_result P
  end.

(** A thread that is inside the resolver block and will still store to
    [pfn] or test it. *)
Definition pending (t : Thread) : Prop :=
  match th_pc t with
  | L39 | L41 | L41_store _ | L44 | L45 | L47 _ | L47_store _ => True
  | _ => False
  end.

(** A thread that has made the default-scope lookup or is about to. *)
Definition looking (t : Thread) : Prop :=
  th_pc t = L39 \/ th_pc t = L41 \/ (1 <= lookups_of t)%nat.

Record invariant (P : Platform) (c : Config) : Prop := {
  inv_threads :
    Forall (fun t => pc_inv P (shared c) t /\ seen_inv P t) (threads c);
  inv_pfn : pfn (shared c) = NULL \/ pfn (shared c) = lookup_result P;
  inv_flag : resolved (shared c) = 0 \/ resolved (shared c) = 1;
  inv_final :
    pfn (shared c) = lookup_result P \/ resolved (shared c) = 0 \/
    Exists pending (threads c);
  inv_looked : resolved (shared c) = 0 \/ Exists looking (threads c)
}.

(** How many steps a thread at a program point can still take, at most,
    if the process does not die. *)
Definition rank (l : pc) : nat :=
  match l with
  | L38 => 16 | L39 => 15 | L41 => 14 | L41_store _ => 13 | L44 => 12
  | L45 => 11 | L47 _ => 10 | L47_store _ => 9 | L49 => 8 | L55 => 7
  | L62 => 6 | L66 => 5 | L72 _ => 4 | L72_call _ _ => 3 | L73 _ _ => 2
  | L75 _ => 1 | Returned _ => 0
  end.

Definition steps_left (c : Config) : nat :=
  list_sum (map (fun t => rank (th_pc t)) (threads c)).

(** The race: the symbol is present and the setter succeeds. *)
Definition race_platform : Platform := symbol_present (fun _ => 0).

(** Thread 0 runs up to and including [resolved = 1]; thread 1 runs its
    whole call; thread 0 finishes. *)
Definition race_schedule : list nat :=
  [0; 0; 1; 1; 0; 0; 0; 0; 0; 0; 0; 0; 0; 0]%nat.

Definition race_calls : list (ptr * ptr * Z) :=
  [(1, 2, BT2020_PQ); (1, 2, BT2020_PQ)].



(** *** What a thread holds and calls *)

(** The window a thread holds a reference on: from its acquisition at line
    66 to its release at line 73. *)
Definition held (t : Thread) : option ptr :=
  match th_pc t with
  | L72 w | L72_call _ w | L73 w _ => Some w
  | _ => None
  end.

(** The events of a thread account for the reference it holds and for no
    other. *)
Definition balance_inv (t : Thread) : Prop :=
  forall rc x,
    refcounts_after rc (th_events t) x =
      match held t with
      | Some w => adjust rc w 1 x
      | None => rc x
      end.

(** A setter call goes through a null pointer or through what the two-step
    lookup finds, on a non-null window; a release is of a non-null
    window. *)
Definition call_ok (P : Platform) (e : Event) : Prop :=
  match e with
  | EvCall f w _ _ => (f = NULL \/ f = lookup_result P) /\ w <> NULL
  | EvRelease w => w <> NULL
  | _ => True
  end.

(** What holds of the calls a thread has made and is about to make: the
    calls it has made and returned from went through a non-null pointer;
    where the default scope has the symbol, the pointer it is about to call
    through is not null either. *)
Definition call_inv (P : Platform) (s : Statics) (t : Thread) : Prop :=
  let d := dlsym P RTLD_DEFAULT symbol_name in
  Forall (call_ok P) (th_events t) /\
  Forall null_free (th_events t) /\
  match th_pc t with
  | L66 => d <> NULL -> pfn s <> NULL
  | L72 w => w <> NULL /\ (d <> NULL -> pfn s <> NULL)
  | L72_call f w =>
      w <> NULL /\ (f = NULL \/ f = lookup_result P) /\ (d <> NULL -> f <> NULL)
  | L73 w _ => w <> NULL
  | _ => True
  end.

(** *** Calls that do not overlap *)

(** The schedule in which thread 0 runs its sixteen steps, then thread 1,
    and so on up to thread K - 1. *)
Definition serial_schedule (K : nat) : list nat :=
  concat (map (fun i => repeat i 16%nat) (seq 0 K)).

(** The call a thread makes, as a call of the sequential model. *)
Definition call_of (P : Platform) (thiz : ptr) (args : ptr * ptr * Z) : Call :=
  let '(env, surface, dataSpace) := args in
  {| call_platform := P; call_env := env; call_thiz := thiz;
     call_surface := surface; call_dataSpace := dataSpace |}.

End Threads.

(** * Properties *)

(** ** Running the model symbolically *)

(** Unfold the effect layer and reduce as far as the next pointer test. *)
Ltac run_shim :=
  cbv beta iota zeta delta
    [bind ret emit load_pfn store_pfn load_resolved store_resolved
     call_dlsym call_dlopen call_fromSurface call_through
     ANativeWindow_release LOGI LOGW app];
  cbn [pfn resolved].

(** Decide the next pointer test: from a hypothesis if one settles it, by
    cases otherwise. *)
Ltac split_null :=
  match goal with
  | H : is_null ?x = _ |- context [is_null ?x] => rewrite H
  | |- context [is_null ?x] => destruct (is_null x) eqn:?
  end.

Ltac run_cases := repeat first [progress run_shim | split_null].

(** ** Basic facts *)

Lemma to_int32_id (z : Z) : in_int32 z -> to_int32 z = z.
Proof.
  unfold in_int32, to_int32. intros H.
  rewrite Z.mod_small by lia. lia.
Qed.

Lemma is_null_true (p : ptr) : is_null p = true <-> p = NULL.
Proof. unfold is_null. apply Z.eqb_eq. Qed.

Lemma is_null_false (p : ptr) : is_null p = false <-> p <> NULL.
Proof. unfold is_null. apply Z.eqb_neq. Qed.

(** ** The resolver block, case by case *)

(** With the flag set the block does nothing at all. *)
Lemma resolve_symbol_cached (P : Platform) (s : Statics) :
  resolved s <> 0 -> resolve_symbol P s = (tt, s, []).
Proof.
  intros H. unfold resolve_symbol, bind, load_resolved.
  apply Z.eqb_neq in H. rewrite H. reflexivity.
Qed.

(** With the flag clear it sets the flag, leaves in [pfn] what the
    two-step lookup finds, and emits the two-step events. *)
Lemma resolve_symbol_fresh (P : Platform) (s : Statics) :
  resolved s = 0 ->
  resolve_symbol P s =
    (tt, {| pfn := lookup_result P; resolved := 1 |}, two_step_events P).
Proof.
  intros H. unfold resolve_symbol, bind at 1, load_resolved.
  rewrite H. cbn [Z.eqb].
  unfold lookup_result, two_step_events.
  run_cases; try reflexivity.
  match goal with
  | H : is_null (dlsym P RTLD_DEFAULT symbol_name) = true |- _ =>
      apply is_null_true in H; rewrite H
  end.
  reflexivity.
Qed.

(** The block always leaves the flag set, and a set flag is left alone. *)
Lemma after_resolve_cached (P : Platform) (s : Statics) :
  resolved s <> 0 -> after_resolve P s = s.
Proof.
  intros H. unfold after_resolve. rewrite resolve_symbol_cached by exact H.
  reflexivity.
Qed.

Lemma after_resolve_fresh (P : Platform) (s : Statics) :
  resolved s = 0 ->
  after_resolve P s = {| pfn := lookup_result P; resolved := 1 |}.
Proof.
  intros H. unfold after_resolve. rewrite resolve_symbol_fresh by exact H.
  reflexivity.
Qed.

Lemma after_resolve_flag (P : Platform) (s : Statics) :
  resolved (after_resolve P s) <> 0.
Proof.
  destruct (Z.eq_dec (resolved s) 0) as [H | H].
  - rewrite after_resolve_fresh by exact H. discriminate.
  - rewrite after_resolve_cached by exact H. exact H.
Qed.

(** ** The dispatch, case by case *)

Lemma dispatch_unavailable (P : Platform) (env surface : ptr) (d : Z) (s : Statics) :
  pfn s = NULL -> dispatch P env surface d s = (-2, s, []).
Proof.
  intros H. apply is_null_true in H. unfold dispatch. run_cases. reflexivity.
Qed.

Lemma dispatch_no_window (P : Platform) (env surface : ptr) (d : Z) (s : Statics) :
  pfn s <> NULL ->
  ANativeWindow_fromSurface P env surface = NULL ->
  dispatch P env surface d s =
    (-1, s,
     [EvFromSurface env surface NULL;
      EvLog ANDROID_LOG_WARN TAG "Failed to get ANativeWindow from Surface" []]).
Proof.
  intros H Hw. apply is_null_false in H. unfold dispatch.
  run_shim. rewrite H. run_shim. rewrite Hw. reflexivity.
Qed.

Lemma dispatch_forward (P : Platform) (env surface : ptr) (d : Z) (s : Statics) :
  pfn s <> NULL ->
  ANativeWindow_fromSurface P env surface <> NULL ->
  let w := ANativeWindow_fromSurface P env surface in
  let r := call_fn P (pfn s) w (to_int32 d) in
  dispatch P env surface d s =
    (r, s,
     [EvFromSurface env surface w; EvCall (pfn s) w (to_int32 d) r;
      EvRelease w; result_log d r]).
Proof.
  intros H Hw w r. apply is_null_false in H. apply is_null_false in Hw.
  unfold dispatch. run_shim. rewrite H. run_shim. rewrite Hw. run_shim.
  subst w r. unfold result_log.
  destruct (_ =? 0); reflexivity.
Qed.

(** The entry point is the resolver block followed by the dispatch. *)
Lemma entry_point_unfold (P : Platform) (env thiz surface : ptr) (d : Z) (s : Statics) :
  nativeSetBuffersDataSpace P env thiz surface d s =
    (status_of (dispatch P env surface d (after_resolve P s)),
     statics_of (dispatch P env surface d (after_resolve P s)),
     events_of (resolve_symbol P s)
       ++ events_of (dispatch P env surface d (after_resolve P s))).
Proof.
  unfold nativeSetBuffersDataSpace,
    Java_com_pgeneratorplus_android_hdr_HdrEglHelper_nativeSetBuffersDataSpace,
    after_resolve, bind, status_of, statics_of, events_of.
  destruct (resolve_symbol P s) as [[u s1] t1]. cbn [fst snd].
  destruct (dispatch P env surface d s1) as [[r s2] t2]. reflexivity.
Qed.

(** ** Which events each half emits *)

Lemma count_app (p : Event -> bool) (a b : list Event) :
  count p (a ++ b) = (count p a + count p b)%nat.
Proof. unfold count. rewrite filter_app, length_app. reflexivity. Qed.

(** The resolver block emits lookup work and log lines only. *)
Lemma two_step_events_kind (P : Platform) :
  Forall (fun e => is_lookup_work e || is_log e = true) (two_step_events P).
Proof.
  unfold two_step_events.
  repeat split_null; repeat constructor.
Qed.

Lemma resolve_events_kind (P : Platform) (s : Statics) :
  Forall (fun e => is_lookup_work e || is_log e = true)
    (events_of (resolve_symbol P s)).
Proof.
  destruct (Z.eq_dec (resolved s) 0) as [H | H].
  - rewrite resolve_symbol_fresh by exact H. apply two_step_events_kind.
  - rewrite resolve_symbol_cached by exact H. constructor.
Qed.

(** A predicate that is false on lookup work and on log lines counts
    nothing in a list of such events. *)
Lemma count_none (p : Event -> bool) (t : list Event) :
  (forall e, is_lookup_work e || is_log e = true -> p e = false) ->
  Forall (fun e => is_lookup_work e || is_log e = true) t ->
  count p t = 0%nat.
Proof.
  intros Hp Ht. unfold count. induction Ht as [| e t He _ IH]; [reflexivity |].
  cbn [filter]. rewrite (Hp e He). exact IH.
Qed.

Lemma resolve_no_acquire (P : Platform) (s : Statics) :
  count is_acquire (events_of (resolve_symbol P s)) = 0%nat.
Proof.
  apply count_none; [| apply resolve_events_kind].
  intros [] ; cbn; congruence.
Qed.

Lemma resolve_no_setter_call (P : Platform) (s : Statics) :
  count is_setter_call (events_of (resolve_symbol P s)) = 0%nat.
Proof.
  apply count_none; [| apply resolve_events_kind].
  intros [] ; cbn; congruence.
Qed.

Lemma resolve_no_release (P : Platform) (s : Statics) :
  count is_release (events_of (resolve_symbol P s)) = 0%nat.
Proof.
  apply count_none; [| apply resolve_events_kind].
  intros [] ; cbn; congruence.
Qed.

(** How the resolver state reads on the statics. *)
Lemma resolver_state_unavailable (s : Statics) :
  resolver_state s = unavailable <-> resolved s <> 0 /\ pfn s = NULL.
Proof.
  unfold resolver_state.
  destruct (Z.eqb_spec (resolved s) 0) as [H | H].
  - split; [discriminate | tauto].
  - destruct (is_null (pfn s)) eqn:E.
    + apply is_null_true in E. tauto.
    + apply is_null_false in E. split; [discriminate | tauto].
Qed.

Lemma resolver_state_available (s : Statics) (f : ptr) :
  resolver_state s = available f <->
  resolved s <> 0 /\ pfn s = f /\ f <> NULL.
Proof.
  unfold resolver_state.
  destruct (Z.eqb_spec (resolved s) 0) as [H | H].
  - split; [discriminate | tauto].
  - destruct (is_null (pfn s)) eqn:E.
    + apply is_null_true in E. split; [discriminate | intros (_ & <- & Hf); tauto].
    + apply is_null_false in E. split.
      * intros [= <-]. tauto.
      * intros (_ & <- & _). reflexivity.
Qed.

(** ** The unavailable branch *)

(** C5.  A call whose resolver outcome is unavailable returns -2 and does
    nothing to the surface, whatever [surface] and [dataSpace] are: it
    attempts no acquisition, invokes no setter and releases nothing.  When
    the outcome was already unavailable as the call was made, the call
    emits no event at all and leaves the statics as they were. *)
Theorem unavailable_returns_minus_2
    (P : Platform) (env thiz surface : ptr) (dataSpace : Z) (s : Statics) :
  resolver_state (after_resolve P s) = unavailable ->
  let out := nativeSetBuffersDataSpace P env thiz surface dataSpace s in
  status_of out = -2 /\
  count is_acquire (events_of out) = 0%nat /\
  count is_setter_call (events_of out) = 0%nat /\
  count is_release (events_of out) = 0%nat /\
  (resolver_state s = unavailable -> out = (-2, s, [])).
Proof.
  intros Hu out. subst out. rewrite entry_point_unfold.
  apply resolver_state_unavailable in Hu. destruct Hu as [_ Hp].
  rewrite (dispatch_unavailable P env surface dataSpace _ Hp).
  cbn [status_of events_of statics_of fst snd].
  rewrite app_nil_r.
  repeat split.
  - apply resolve_no_acquire.
  - apply resolve_no_setter_call.
  - apply resolve_no_release.
  - intros Hs. apply resolver_state_unavailable in Hs. destruct Hs as [Hr _].
    rewrite after_resolve_cached, resolve_symbol_cached by exact Hr.
    reflexivity.
Qed.

Lemma unavailable_returns_minus_2_witness :
  let out := nativeSetBuffersDataSpace symbol_absent 1 2 3 BT2020_PQ
               {| pfn := NULL; resolved := 1 |} in
  status_of out = -2 /\
  count is_acquire (events_of out) = 0%nat /\
  count is_setter_call (events_of out) = 0%nat /\
  count is_release (events_of out) = 0%nat /\
  (resolver_state {| pfn := NULL; resolved := 1 |} = unavailable ->
   out = (-2, {| pfn := NULL; resolved := 1 |}, [])).
Proof.
  apply (unavailable_returns_minus_2 symbol_absent 1 2 3 BT2020_PQ
           {| pfn := NULL; resolved := 1 |}).
  reflexivity.
Defined.

(** ** Acquisition failure *)

(** C6.  When the resolver outcome is available and the platform hands back
    no native window for the surface (as it does for a null surface), the
    call returns -1, the setter is not invoked and nothing is released. *)
Theorem acquisition_failure_returns_minus_1
    (P : Platform) (env thiz surface : ptr) (dataSpace : Z) (s : Statics)
    (f : ptr) :
  resolver_state (after_resolve P s) = available f ->
  ANativeWindow_fromSurface P env surface = NULL ->
  let out := nativeSetBuffersDataSpace P env thiz surface dataSpace s in
  status_of out = -1 /\
  count is_setter_call (events_of out) = 0%nat /\
  count is_release (events_of out) = 0%nat /\
  count is_acquire (events_of out) = 1%nat.
Proof.
  intros Ha Hw out. subst out. rewrite entry_point_unfold.
  apply resolver_state_available in Ha. destruct Ha as (_ & Hp & Hf).
  rewrite dispatch_no_window by (rewrite ?Hp; assumption).
  cbn [status_of events_of statics_of fst snd].
  rewrite !count_app, resolve_no_setter_call, resolve_no_release,
    resolve_no_acquire.
  repeat split.
Qed.

Lemma acquisition_failure_returns_minus_1_witness :
  let out := nativeSetBuffersDataSpace (symbol_present (fun _ => 0))
               1 2 NULL BT2020_PQ initial in
  status_of out = -1 /\
  count is_setter_call (events_of out) = 0%nat /\
  count is_release (events_of out) = 0%nat /\
  count is_acquire (events_of out) = 1%nat.
Proof.
  apply (acquisition_failure_returns_minus_1 (symbol_present (fun _ => 0))
           1 2 NULL BT2020_PQ initial 4096); reflexivity.
Defined.

(** ** The forwarding path *)

(** The whole call on the forwarding path. *)
Lemma entry_point_forward
    (P : Platform) (env thiz surface : ptr) (dataSpace : Z) (s : Statics)
    (f : ptr) :
  in_int32 dataSpace ->
  resolver_state (after_resolve P s) = available f ->
  ANativeWindow_fromSurface P env surface <> NULL ->
  nativeSetBuffersDataSpace P env thiz surface dataSpace s =
    (call_fn P f (ANativeWindow_fromSurface P env surface) dataSpace,
     after_resolve P s,
     events_of (resolve_symbol P s)
       ++ [EvFromSurface env surface (ANativeWindow_fromSurface P env surface);
           EvCall f (ANativeWindow_fromSurface P env surface) dataSpace
             (call_fn P f (ANativeWindow_fromSurface P env surface) dataSpace);
           EvRelease (ANativeWindow_fromSurface P env surface);
           result_log dataSpace
             (call_fn P f (ANativeWindow_fromSurface P env surface) dataSpace)]).
Proof.
  intros Hd Ha Hw. rewrite entry_point_unfold.
  apply resolver_state_available in Ha. destruct Ha as (_ & Hp & Hf).
  pose proof (dispatch_forward P env surface dataSpace (after_resolve P s)) as D.
  cbv zeta in D. rewrite D by (rewrite ?Hp; assumption). clear D.
  rewrite Hp, (to_int32_id _ Hd). reflexivity.
Qed.

(** C7.  When the resolver outcome is available as [f] and the acquisition
    yields a window [w], the call does, after whatever the resolver block
    did and in this order: acquire [w], invoke [f] on [w] and the caller's
    tag with result [r], release [w], log; it returns exactly [r] (0 when
    the platform succeeded, its failure code otherwise) and leaves the
    statics as the resolver block left them. *)
Theorem available_forwards_and_returns_result
    (P : Platform) (env thiz surface : ptr) (dataSpace : Z) (s : Statics)
    (f : ptr) :
  in_int32 dataSpace ->
  resolver_state (after_resolve P s) = available f ->
  ANativeWindow_fromSurface P env surface <> NULL ->
  let w := ANativeWindow_fromSurface P env surface in
  let r := call_fn P f w dataSpace in
  let out := nativeSetBuffersDataSpace P env thiz surface dataSpace s in
  status_of out = r /\
  statics_of out = after_resolve P s /\
  events_of out =
    events_of (resolve_symbol P s)
      ++ [EvFromSurface env surface w; EvCall f w dataSpace r;
          EvRelease w; result_log dataSpace r].
Proof.
  intros Hd Ha Hw w r out. subst w r out.
  rewrite (entry_point_forward P env thiz surface dataSpace s f Hd Ha Hw).
  cbn [status_of events_of statics_of fst snd]. repeat split.
Qed.

Lemma available_forwards_and_returns_result_witness :
  let out := nativeSetBuffersDataSpace (symbol_present (fun _ => -38))
               1 2 3 0 initial in
  status_of out = -38 /\
  statics_of out = {| pfn := 4096; resolved := 1 |} /\
  events_of out =
    [EvDlsym RTLD_DEFAULT symbol_name 4096;
     EvLog ANDROID_LOG_INFO TAG "ANativeWindow_setBuffersDataSpace resolved" []]
    ++ [EvFromSurface 1 3 512; EvCall 4096 512 0 (-38); EvRelease 512;
        EvLog ANDROID_LOG_WARN TAG
          "ANativeWindow_setBuffersDataSpace(0x%08x) failed: %d" [0; -38]].
Proof.
  apply (available_forwards_and_returns_result (symbol_present (fun _ => -38))
           1 2 3 0 initial 4096).
  - unfold in_int32. lia.
  - reflexivity.
  - discriminate.
Defined.

(** C8.  Every 32-bit tag, recognised or not, reaches the setter as it is:
    the one setter call of the call carries exactly the caller's
    [dataSpace], and the status is the setter's answer to that tag. *)
Theorem tag_passed_verbatim
    (P : Platform) (env thiz surface : ptr) (dataSpace : Z) (s : Statics)
    (f : ptr) :
  in_int32 dataSpace ->
  resolver_state (after_resolve P s) = available f ->
  ANativeWindow_fromSurface P env surface <> NULL ->
  let w := ANativeWindow_fromSurface P env surface in
  let out := nativeSetBuffersDataSpace P env thiz surface dataSpace s in
  filter is_setter_call (events_of out) =
    [EvCall f w dataSpace (call_fn P f w dataSpace)] /\
  status_of out = call_fn P f w dataSpace.
Proof.
  intros Hd Ha Hw w out. subst out.
  rewrite (entry_point_forward P env thiz surface dataSpace s f Hd Ha Hw). cbn [status_of events_of statics_of fst snd].
  split; [| reflexivity].
  rewrite filter_app. cbn [filter is_setter_call].
  assert (N : filter is_setter_call (events_of (resolve_symbol P s)) = []).
  { apply length_zero_iff_nil. apply resolve_no_setter_call. }
  rewrite N. unfold result_log.
  destruct (_ =? 0); reflexivity.
Qed.

Lemma tag_passed_verbatim_witness :
  let out := nativeSetBuffersDataSpace (symbol_present hdr_only)
               1 2 3 305419896 initial in
  filter is_setter_call (events_of out) = [EvCall 4096 512 305419896 (-22)] /\
  status_of out = -22.
Proof.
  apply (tag_passed_verbatim (symbol_present hdr_only) 1 2 3 305419896
           initial 4096).
  - unfold in_int32. lia.
  - reflexivity.
  - discriminate.
Defined.

(** ** The three ways through the dispatch *)

Lemma dispatch_cases (P : Platform) (env surface : ptr) (d : Z) (s : Statics) :
  let w := ANativeWindow_fromSurface P env surface in
  let r := call_fn P (pfn s) w (to_int32 d) in
  (pfn s = NULL /\ dispatch P env surface d s = (-2, s, []))
  \/ (pfn s <> NULL /\ w = NULL /\
      dispatch P env surface d s =
        (-1, s,
         [EvFromSurface env surface NULL;
          EvLog ANDROID_LOG_WARN TAG "Failed to get ANativeWindow from Surface" []]))
  \/ (pfn s <> NULL /\ w <> NULL /\
      dispatch P env surface d s =
        (r, s,
         [EvFromSurface env surface w; EvCall (pfn s) w (to_int32 d) r;
          EvRelease w; result_log d r])).
Proof.
  intros w r.
  destruct (Z.eq_dec (pfn s) NULL) as [Hp | Hp].
  - left. split; [exact Hp | apply dispatch_unavailable; exact Hp].
  - right. destruct (Z.eq_dec w NULL) as [Hw | Hw].
    + left. repeat split; try assumption. apply dispatch_no_window; assumption.
    + right. repeat split; try assumption.
      apply (dispatch_forward P env surface d s Hp Hw).
Qed.

Lemma dispatch_keeps_statics (P : Platform) (env surface : ptr) (d : Z) (s : Statics) :
  statics_of (dispatch P env surface d s) = s.
Proof.
  destruct (dispatch_cases P env surface d s) as [[_ E] | [(_ & _ & E) | (_ & _ & E)]];
    rewrite E; reflexivity.
Qed.

Lemma result_log_is_log (d r : Z) : is_log (result_log d r) = true.
Proof. unfold result_log. destruct (r =? 0); reflexivity. Qed.

Lemma dispatch_no_lookup_work (P : Platform) (env surface : ptr) (d : Z) (s : Statics) :
  filter is_lookup_work (events_of (dispatch P env surface d s)) = [].
Proof.
  destruct (dispatch_cases P env surface d s) as [[_ E] | [(_ & _ & E) | (_ & _ & E)]];
    rewrite E; cbn [events_of snd filter is_lookup_work]; try reflexivity.
  unfold result_log. destruct (_ =? 0); reflexivity.
Qed.

Lemma resolve_event_kind (P : Platform) (s : Statics) (e : Event) :
  In e (events_of (resolve_symbol P s)) -> is_lookup_work e || is_log e = true.
Proof.
  intros H. pose proof (resolve_events_kind P s) as F.
  rewrite Forall_forall in F. apply F. exact H.
Qed.

(** ** Null pointers *)


(** ** Status and side effect *)

(** C1, as the code has it.  The setter is invoked at most once per call.
    A status other than -2 and -1 means it was invoked exactly once; when
    it was not invoked the status is -2 or -1; and whenever it was invoked
    the status is its own answer, whatever that is: -2 and -1 included. *)
Theorem status_and_setter_invocation
    (P : Platform) (env thiz surface : ptr) (dataSpace : Z) (s : Statics) :
  let out := nativeSetBuffersDataSpace P env thiz surface dataSpace s in
  let n := count is_setter_call (events_of out) in
  (status_of out <> -2 -> status_of out <> -1 -> n = 1%nat) /\
  (n = 0%nat -> status_of out = -2 \/ status_of out = -1) /\
  (n = 0%nat \/
   n = 1%nat /\
   exists f w,
     status_of out = call_fn P f w (to_int32 dataSpace) /\
     In (EvCall f w (to_int32 dataSpace) (status_of out)) (events_of out)).
Proof.
  intros out n. subst n out. rewrite entry_point_unfold.
  cbn [status_of events_of fst snd].
  rewrite count_app, resolve_no_setter_call.
  destruct (dispatch_cases P env surface dataSpace (after_resolve P s))
    as [[_ E] | [(_ & _ & E) | (Hp & Hw & E)]];
    rewrite E; cbn [status_of events_of fst snd].
  - cbn. intuition congruence.
  - cbn. intuition congruence.
  - assert (C : count is_setter_call
                  [EvFromSurface env surface (ANativeWindow_fromSurface P env surface);
                   EvCall (pfn (after_resolve P s))
                     (ANativeWindow_fromSurface P env surface) (to_int32 dataSpace)
                     (call_fn P (pfn (after_resolve P s))
                        (ANativeWindow_fromSurface P env surface) (to_int32 dataSpace));
                   EvRelease (ANativeWindow_fromSurface P env surface);
                   result_log dataSpace
                     (call_fn P (pfn (after_resolve P s))
                        (ANativeWindow_fromSurface P env surface) (to_int32 dataSpace))]
                = 1%nat).
    { unfold count, result_log. cbn [filter is_setter_call].
      destruct (_ =? 0); reflexivity. }
    rewrite C. cbn [Nat.add]. repeat split.
    + intros H; discriminate H.
    + right. split; [reflexivity |].
      exists (pfn (after_resolve P s)), (ANativeWindow_fromSurface P env surface).
      split; [reflexivity |].
      apply in_or_app. right. right. left. reflexivity.
Qed.

(** The setter answers -2 (the platform's -ENOENT): the status is -2 and
    the setter was invoked, against "-2 implies not invoked". *)
Lemma status_minus_2_after_invocation :
  let out := nativeSetBuffersDataSpace (symbol_present (fun _ => -2))
               1 2 3 BT2020_PQ initial in
  status_of out = -2 /\
  count is_setter_call (events_of out) = 1%nat /\
  ~ (status_of out = -2 -> count is_setter_call (events_of out) = 0%nat).
Proof.
  cbv zeta. split; [reflexivity |]. split; [reflexivity |].
  intros H. specialize (H eq_refl). discriminate H.
Qed.

(** ** Acquire and release *)

Lemma refcounts_after_app (rc : RefCounts) (a b : list Event) :
  refcounts_after rc (a ++ b) = refcounts_after (refcounts_after rc a) b.
Proof. unfold refcounts_after. apply fold_left_app. Qed.

(** Lookup work and log lines leave the reference counts alone. *)
Lemma refcounts_after_other (rc : RefCounts) (t : list Event) :
  Forall (fun e => is_lookup_work e || is_log e = true) t ->
  refcounts_after rc t = rc.
Proof.
  intros H. unfold refcounts_after. revert rc.
  induction H as [| e t He _ IH]; intros rc; [reflexivity |].
  cbn [fold_left]. rewrite IH.
  destruct e; cbn in He; try discriminate; reflexivity.
Qed.

Lemma adjust_back (rc : RefCounts) (w x : ptr) :
  adjust (adjust rc w 1) w (-1) x = rc x.
Proof. unfold adjust. destruct (x =? w); lia. Qed.

(** C4.  Whenever a call acquired a window [w] (the acquisition is among
    its events and returned non-null), the call released [w] exactly once,
    released nothing else, and did so after the setter call, whatever the
    setter returned; every reference count is after the call what it was
    before. *)
Theorem acquire_release_paired
    (P : Platform) (env thiz surface : ptr) (dataSpace : Z) (s : Statics)
    (acq_env acq_surface w : ptr) (rc : RefCounts) :
  let out := nativeSetBuffersDataSpace P env thiz surface dataSpace s in
  In (EvFromSurface acq_env acq_surface w) (events_of out) ->
  w <> NULL ->
  count is_acquire (events_of out) = 1%nat /\
  count is_release (events_of out) = 1%nat /\
  count (is_release_of w) (events_of out) = 1%nat /\
  (exists before f d r after,
     events_of out =
       before ++ [EvFromSurface env surface w; EvCall f w d r; EvRelease w]
         ++ after /\
     status_of out = r) /\
  (forall x, refcounts_after rc (events_of out) x = rc x).
Proof.
  intros out Hin Hw. subst out. revert Hin. rewrite entry_point_unfold.
  cbn [status_of events_of fst snd]. intros Hin.
  apply in_app_or in Hin.
  destruct Hin as [Hin | Hin].
  { apply resolve_event_kind in Hin. discriminate Hin. }
  rewrite !count_app, resolve_no_acquire, resolve_no_release.
  rewrite (count_none (is_release_of w) _) by
    (try apply resolve_events_kind; intros [] ; cbn; congruence).
  rewrite refcounts_after_app.
  rewrite (refcounts_after_other rc _ (resolve_events_kind P s)).
  destruct (dispatch_cases P env surface dataSpace (after_resolve P s))
    as [[_ E] | [(_ & _ & E) | (Hp & Hw' & E)]];
    rewrite E in Hin |- *; cbn [status_of events_of fst snd] in Hin |- *.
  - destruct Hin.
  - destruct Hin as [Hin | [Hin | []]]; [| discriminate Hin].
    injection Hin as _ _ Hnull. congruence.
  - destruct Hin as [Hin | [Hin | [Hin | [Hin | []]]]]; try discriminate Hin.
    2:{ unfold result_log in Hin. destruct (_ =? 0); discriminate Hin. }
    injection Hin as _ _ Hwin. rewrite Hwin in *.
    unfold count. cbn [filter is_acquire is_release is_release_of].
    rewrite Z.eqb_refl.
    assert (L : forall p, (forall a b c d, p (EvLog a b c d) = false) ->
                          p (result_log dataSpace
                               (call_fn P (pfn (after_resolve P s)) w
                                  (to_int32 dataSpace))) = false).
    { intros p Hp'. unfold result_log. destruct (_ =? 0); apply Hp'. }
    rewrite !L by reflexivity. cbn [length Nat.add].
    repeat split.
    + exists (events_of (resolve_symbol P s)), (pfn (after_resolve P s)),
        (to_int32 dataSpace),
        (call_fn P (pfn (after_resolve P s)) w (to_int32 dataSpace)),
        [result_log dataSpace
           (call_fn P (pfn (after_resolve P s)) w (to_int32 dataSpace))].
      split; reflexivity.
    + intros x. unfold refcounts_after. cbn [fold_left count_reference].
      apply is_null_false in Hw. rewrite Hw.
      assert (R : forall rc', count_reference rc'
                    (result_log dataSpace
                       (call_fn P (pfn (after_resolve P s)) w (to_int32 dataSpace)))
                  = rc').
      { intros rc'. unfold result_log. destruct (_ =? 0); reflexivity. }
      rewrite R. apply adjust_back.
Qed.

Lemma acquire_release_paired_witness :
  let out := nativeSetBuffersDataSpace (symbol_in_library (fun _ => -38))
               1 2 3 0 initial in
  count is_acquire (events_of out) = 1%nat /\
  count is_release (events_of out) = 1%nat /\
  count (is_release_of 512) (events_of out) = 1%nat /\
  (exists before f d r after,
     events_of out =
       before ++ [EvFromSurface 1 3 512; EvCall f 512 d r; EvRelease 512]
         ++ after /\
     status_of out = r) /\
  (forall x, refcounts_after (fun _ => 1) (events_of out) x = 1).
Proof.
  apply (acquire_release_paired (symbol_in_library (fun _ => -38))
           1 2 3 0 initial 1 3 512 (fun _ => 1)).
  - cbv. tauto.
  - discriminate.
Defined.

(** ** The order of the lookup *)

Lemma count_filter_nil (p : Event -> bool) (t : list Event) :
  filter p t = [] -> count p t = 0%nat.
Proof. intros H. unfold count. rewrite H. reflexivity. Qed.

(** Nothing is counted by [p] where nothing passes a wider filter [q]. *)
Lemma count_within (p q : Event -> bool) (t : list Event) :
  (forall e, p e = true -> q e = true) ->
  filter q t = [] -> count p t = 0%nat.
Proof.
  intros Hpq Hq. unfold count. apply length_zero_iff_nil.
  destruct (filter p t) as [| e l] eqn:F; [reflexivity |].
  assert (In e (filter p t)) as Hin by (rewrite F; left; reflexivity).
  apply filter_In in Hin. destruct Hin as [Hin He].
  assert (In e (filter q t)) as Hin' by (apply filter_In; auto).
  rewrite Hq in Hin'. destruct Hin'.
Qed.

(** C9.  A call that finds the flag clear starts with the two-step events
    and does no lookup work after them.  Its first event is the
    default-scope lookup of the symbol.  If that finds the symbol, no
    library is loaded and no second lookup is made.  If it does not, the
    next event is the load of libnativewindow.so, followed, when the load
    gave a handle, by the lookup of the symbol in that handle. *)
Theorem lookup_is_two_step
    (P : Platform) (env thiz surface : ptr) (dataSpace : Z) (s : Statics) :
  resolved s = 0 ->
  let out := nativeSetBuffersDataSpace P env thiz surface dataSpace s in
  let found := dlsym P RTLD_DEFAULT symbol_name in
  let lib := dlopen P library_name (RTLD_LAZY P) in
  (exists rest,
     events_of out = two_step_events P ++ rest /\
     count is_lookup_work rest = 0%nat) /\
  (exists rest,
     events_of out = EvDlsym RTLD_DEFAULT symbol_name found :: rest) /\
  (found <> NULL ->
     count is_library_load (events_of out) = 0%nat /\
     count is_library_lookup (events_of out) = 0%nat /\
     pfn (statics_of out) = found) /\
  (found = NULL ->
     exists rest,
       events_of out =
         EvDlsym RTLD_DEFAULT symbol_name NULL
           :: EvDlopen library_name (RTLD_LAZY P) lib :: rest /\
       (lib <> NULL ->
          pfn (statics_of out) = dlsym P (LibHandle lib) symbol_name /\
          exists rest',
            rest = EvDlsym (LibHandle lib) symbol_name
                     (dlsym P (LibHandle lib) symbol_name) :: rest') /\
       (lib = NULL ->
          pfn (statics_of out) = NULL /\
          count is_library_lookup (events_of out) = 0%nat)).
Proof.
  intros Hr out found lib. subst out. rewrite entry_point_unfold.
  cbn [status_of statics_of events_of fst snd].
  rewrite dispatch_keeps_statics, after_resolve_fresh, resolve_symbol_fresh
    by exact Hr.
  cbn [events_of snd pfn].
  set (rest := events_of (dispatch P env surface dataSpace
                            {| pfn := lookup_result P; resolved := 1 |})).
  assert (Hrest : filter is_lookup_work rest = [])
    by apply dispatch_no_lookup_work.
  assert (Hload : count is_library_load rest = 0%nat).
  { apply (count_within is_library_load is_lookup_work); [| exact Hrest].
    intros []; cbn; congruence. }
  assert (Hlook : count is_library_lookup rest = 0%nat).
  { apply (count_within is_library_lookup is_lookup_work); [| exact Hrest].
    intros [[] | | | | | ]; cbn; congruence. }
  clearbody rest.
  split; [| split; [| split]].
  - exists rest. split; [reflexivity | apply count_filter_nil; exact Hrest].
  - unfold two_step_events. fold found. cbn [app]. eexists. reflexivity.
  - intros Hf. apply is_null_false in Hf.
    unfold two_step_events, lookup_result. fold found. rewrite Hf.
    rewrite !count_app, Hload, Hlook. repeat split.
  - intros Hf. unfold two_step_events, lookup_result. fold found lib.
    rewrite Hf. change (is_null NULL) with true. cbv iota.
    eexists. split; [cbn [app]; reflexivity |]. split.
    + intros Hl. apply is_null_false in Hl. rewrite Hl. split; [reflexivity |].
      eexists. reflexivity.
    + intros Hl. rewrite Hl. change (is_null NULL) with true. cbv iota.
      split; [reflexivity |].
      rewrite !count_app, Hlook. reflexivity.
Qed.

Lemma lookup_is_two_step_witness :
  let P := symbol_in_library (fun _ => 0) in
  let out := nativeSetBuffersDataSpace P 1 2 3 BT2020_HLG initial in
  let found := dlsym P RTLD_DEFAULT symbol_name in
  let lib := dlopen P library_name (RTLD_LAZY P) in
  (exists rest,
     events_of out = two_step_events P ++ rest /\
     count is_lookup_work rest = 0%nat) /\
  (exists rest,
     events_of out = EvDlsym RTLD_DEFAULT symbol_name found :: rest) /\
  (found <> NULL ->
     count is_library_load (events_of out) = 0%nat /\
     count is_library_lookup (events_of out) = 0%nat /\
     pfn (statics_of out) = found) /\
  (found = NULL ->
     exists rest,
       events_of out =
         EvDlsym RTLD_DEFAULT symbol_name NULL
           :: EvDlopen library_name (RTLD_LAZY P) lib :: rest /\
       (lib <> NULL ->
          pfn (statics_of out) = dlsym P (LibHandle lib) symbol_name /\
          exists rest',
            rest = EvDlsym (LibHandle lib) symbol_name
                     (dlsym P (LibHandle lib) symbol_name) :: rest') /\
       (lib = NULL ->
          pfn (statics_of out) = NULL /\
          count is_library_lookup (events_of out) = 0%nat)).
Proof.
  apply (lookup_is_two_step (symbol_in_library (fun _ => 0)) 1 2 3 BT2020_HLG
           initial).
  reflexivity.
Defined.

(** ** One resolution per process *)

(** What the two-step lookup costs: one default-scope lookup, at most one
    library load, at most one lookup in the library. *)
Lemma two_step_events_counts (P : Platform) :
  count is_default_lookup (two_step_events P) = 1%nat /\
  (count is_library_load (two_step_events P) <= 1)%nat /\
  (count is_library_lookup (two_step_events P) <= 1)%nat.
Proof.
  unfold two_step_events, count.
  repeat split_null; cbn; repeat split; lia.
Qed.

Lemma run_call_cached (c : Call) (s : Statics) :
  resolved s <> 0 ->
  statics_of (run_call c s) = s /\
  filter is_lookup_work (events_of (run_call c s)) = [] /\
  (pfn s = NULL -> run_call c s = (-2, s, [])).
Proof.
  intros Hr. unfold run_call. rewrite entry_point_unfold.
  rewrite after_resolve_cached, resolve_symbol_cached by exact Hr.
  cbn [status_of statics_of events_of fst snd app].
  split; [apply dispatch_keeps_statics |].
  split; [apply dispatch_no_lookup_work |].
  intros Hp. rewrite (dispatch_unavailable _ _ _ _ _ Hp). reflexivity.
Qed.

(** Once the flag is set, no call changes the statics or does lookup work;
    with a null [pfn] every call returns -2 and emits nothing. *)
Lemma run_calls_cached (cs : list Call) (s : Statics) :
  resolved s <> 0 ->
  snd (run_calls cs s) = s /\
  Forall (fun s' => s' = s) (statics_trail cs s) /\
  filter is_lookup_work (all_events (fst (run_calls cs s))) = [] /\
  (pfn s = NULL -> Forall (fun rt => rt = (-2, [])) (fst (run_calls cs s))).
Proof.
  intros Hr. induction cs as [| c cs IH].
  - cbn. repeat split; constructor.
  - destruct (run_call_cached c s Hr) as (Hs & Hw & Hn).
    destruct IH as (IH1 & IH2 & IH3 & IH4).
    cbn [run_calls statics_trail]. rewrite Hs.
    destruct (run_call c s) as [[r s1] t] eqn:E.
    cbn [statics_of fst snd events_of] in Hs, Hw. subst s1.
    destruct (run_calls cs s) as [rs s2] eqn:E2.
    cbn [fst snd] in *. subst s2.
    repeat split.
    + constructor; [reflexivity | exact IH2].
    + unfold all_events in *. cbn [map concat snd].
      rewrite filter_app, Hw, IH3. reflexivity.
    + intros Hp. constructor; [| apply IH4; exact Hp].
      specialize (Hn Hp). congruence.
Qed.

(** C3.  In a process that makes the calls [c :: cs] in this order: the
    default-scope lookup is made once, the library load and the lookup in
    the library at most once each, and none of them after the first call;
    the statics leave [unresolved] at the first call for a terminal state
    (available or unavailable) and are that same state after every call;
    and when the first call's lookup found nothing, every call returns -2,
    whatever the platform of the later calls offers. *)
Theorem resolver_is_one_shot (c : Call) (cs : list Call) :
  let results := fst (run_calls (c :: cs) initial) in
  let terminal := {| pfn := lookup_result (call_platform c); resolved := 1 |} in
  (count is_default_lookup (all_events results) = 1%nat /\
   (count is_library_load (all_events results) <= 1)%nat /\
   (count is_library_lookup (all_events results) <= 1)%nat) /\
  (exists first later,
     results = first :: later /\
     count is_lookup_work (all_events later) = 0%nat) /\
  (resolver_state initial = unresolved /\
   resolver_state terminal <> unresolved /\
   Forall (fun s => s = terminal) (statics_trail (c :: cs) initial) /\
   snd (run_calls (c :: cs) initial) = terminal) /\
  (lookup_result (call_platform c) = NULL ->
   resolver_state terminal = unavailable /\
   Forall (fun rt => fst rt = -2) results).
Proof.
  intros results terminal. subst results.
  assert (Hfirst : run_call c initial =
            (status_of (dispatch (call_platform c) (call_env c) (call_surface c)
                          (call_dataSpace c) terminal),
             terminal,
             two_step_events (call_platform c)
               ++ events_of (dispatch (call_platform c) (call_env c)
                               (call_surface c) (call_dataSpace c) terminal))).
  { unfold run_call. rewrite entry_point_unfold.
    rewrite after_resolve_fresh, resolve_symbol_fresh by reflexivity.
    rewrite dispatch_keeps_statics. reflexivity. }
  assert (Ht : resolved terminal <> 0) by (cbn; discriminate).
  destruct (run_calls_cached cs terminal Ht) as (L1 & L2 & L3 & L4).
  cbn [run_calls statics_trail]. rewrite Hfirst.
  cbn [statics_of fst snd].
  destruct (run_calls cs terminal) as [rs s2] eqn:E. cbn [fst snd] in *. subst s2.
  set (rest := events_of (dispatch (call_platform c) (call_env c)
                            (call_surface c) (call_dataSpace c) terminal)).
  assert (Hrest : filter is_lookup_work rest = [])
    by apply dispatch_no_lookup_work.
  assert (Hall : forall p, (forall e, p e = true -> is_lookup_work e = true) ->
            count p (all_events
                       ((status_of (dispatch (call_platform c) (call_env c)
                                      (call_surface c) (call_dataSpace c) terminal),
                         two_step_events (call_platform c) ++ rest) :: rs))
            = count p (two_step_events (call_platform c))).
  { intros p Hp. unfold all_events. cbn [map concat snd].
    fold (all_events rs). rewrite !count_app.
    rewrite (count_within p is_lookup_work rest Hp Hrest).
    rewrite (count_within p is_lookup_work _ Hp L3). lia. }
  destruct (two_step_events_counts (call_platform c)) as (C1 & C2 & C3).
  split; [| split; [| split]].
  - rewrite !Hall; [repeat split; assumption | | |].
    + intros [[] | | | | | ]; cbn; congruence.
    + intros []; cbn; congruence.
    + intros [[] | | | | | ]; cbn; congruence.
  - eexists. exists rs. split; [reflexivity |].
    apply count_filter_nil. exact L3.
  - split; [reflexivity |]. split; [| split; [| reflexivity]].
    + unfold resolver_state, terminal. cbn [resolved Z.eqb].
      destruct (is_null _); discriminate.
    + constructor; [reflexivity | exact L2].
  - intros Hnull. split.
    + apply resolver_state_unavailable. split; [exact Ht | exact Hnull].
    + constructor.
      * cbn [fst]. rewrite dispatch_unavailable by exact Hnull. reflexivity.
      * specialize (L4 Hnull). eapply Forall_impl; [| exact L4].
        intros rt ->. reflexivity.
Qed.

Lemma resolver_is_one_shot_witness :
  Forall (fun rt => fst rt = -2) (fst (run_calls becomes_present initial)).
Proof.
  destruct (resolver_is_one_shot
              {| call_platform := symbol_absent; call_env := 1; call_thiz := 2;
                 call_surface := 3; call_dataSpace := BT2020_PQ |}
              [ {| call_platform := symbol_present (fun _ => 0); call_env := 1;
                   call_thiz := 2; call_surface := 3;
                   call_dataSpace := BT2020_PQ |} ])
    as (_ & _ & _ & H).
  apply H. reflexivity.
Defined.

(** ** The end-to-end scenarios *)

Example scenario_1_pq :
  nativeSetBuffersDataSpace (symbol_present hdr_only) 1 2 3 BT2020_PQ initial =
    (0, {| pfn := 4096; resolved := 1 |},
     [EvDlsym RTLD_DEFAULT symbol_name 4096;
      EvLog ANDROID_LOG_INFO TAG "ANativeWindow_setBuffersDataSpace resolved" [];
      EvFromSurface 1 3 512; EvCall 4096 512 BT2020_PQ 0; EvRelease 512;
      EvLog ANDROID_LOG_INFO TAG "Set buffer data space to 0x%08x via NDK"
        [BT2020_PQ]]).
Proof. reflexivity. Qed.

Example scenario_2_hlg :
  status_of (nativeSetBuffersDataSpace (symbol_present hdr_only) 1 2 3
               BT2020_HLG initial) = 0 /\
  filter is_setter_call
    (events_of (nativeSetBuffersDataSpace (symbol_present hdr_only) 1 2 3
                  BT2020_HLG initial)) = [EvCall 4096 512 BT2020_HLG 0].
Proof. split; reflexivity. Qed.

Example scenario_3_absent :
  nativeSetBuffersDataSpace symbol_absent 1 2 3 BT2020_PQ initial =
    (-2, {| pfn := NULL; resolved := 1 |},
     [EvDlsym RTLD_DEFAULT symbol_name NULL;
      EvDlopen library_name 1 NULL;
      EvLog ANDROID_LOG_WARN TAG
        "ANativeWindow_setBuffersDataSpace not available (API < 28?)" []]).
Proof. reflexivity. Qed.

Example scenario_4_null_surface :
  nativeSetBuffersDataSpace (symbol_present hdr_only) 1 2 NULL BT2020_PQ initial =
    (-1, {| pfn := 4096; resolved := 1 |},
     [EvDlsym RTLD_DEFAULT symbol_name 4096;
      EvLog ANDROID_LOG_INFO TAG "ANativeWindow_setBuffersDataSpace resolved" [];
      EvFromSurface 1 NULL NULL;
      EvLog ANDROID_LOG_WARN TAG "Failed to get ANativeWindow from Surface" []]).
Proof. reflexivity. Qed.

Example scenario_5_platform_failure :
  status_of (nativeSetBuffersDataSpace (symbol_present (fun _ => -38)) 1 2 3 0
               initial) = -38 /\
  count is_release
    (events_of (nativeSetBuffersDataSpace (symbol_present (fun _ => -38)) 1 2 3 0
                  initial)) = 1%nat.
Proof. split; reflexivity. Qed.

Example scenario_6_becomes_present :
  run_calls becomes_present initial =
    ([(-2,
       [EvDlsym RTLD_DEFAULT symbol_name NULL;
        EvDlopen library_name 1 NULL;
        EvLog ANDROID_LOG_WARN TAG
          "ANativeWindow_setBuffersDataSpace not available (API < 28?)" []]);
      (-2, [])],
     {| pfn := NULL; resolved := 1 |}).
Proof. reflexivity. Qed.

(** ** Concurrent callers *)

Import Threads.

(** A thread that is calling through a null pointer stays where it is. *)
Lemma thread_step_crashed (P : Platform) (t : Thread) (s : Statics) :
  crashed t = true -> thread_step P t s = (t, s).
Proof.
  unfold crashed, thread_step. destruct (th_pc t); try discriminate.
  intros ->. reflexivity.
Qed.

Lemma step_alive (P : Platform) (i : nat) (c : Config) :
  dead c = false ->
  step P i c =
    match nth_error (threads c) i with
    | None => c
    | Some t =>
        {| shared := snd (thread_step P t (shared c));
           threads := set_nth i (fst (thread_step P t (shared c))) (threads c) |}
    end.
Proof.
  intros H. unfold step. rewrite H.
  destruct (nth_error (threads c) i) as [t |]; [| reflexivity].
  destruct (thread_step P t (shared c)). reflexivity.
Qed.

Lemma step_dead (P : Platform) (i : nat) (c : Config) :
  dead c = true -> step P i c = c.
Proof. intros H. unfold step. rewrite H. reflexivity. Qed.

(** One step of a process with a single thread. *)
Lemma run_single (P : Platform) (n : nat) (t : Thread) (s : Statics) :
  run P (repeat 0%nat (S n)) {| shared := s; threads := [t] |} =
  run P (repeat 0%nat n)
    {| shared := snd (thread_step P t s); threads := [fst (thread_step P t s)] |}.
Proof.
  cbn [repeat run]. f_equal.
  destruct (crashed t) eqn:C.
  - rewrite step_dead by (unfold dead; cbn [threads existsb]; rewrite C; reflexivity).
    rewrite (thread_step_crashed P t s C). reflexivity.
  - rewrite step_alive by (unfold dead; cbn [threads existsb]; rewrite C; reflexivity).
    reflexivity.
Qed.

Ltac thread_step_once :=
  rewrite run_single; unfold thread_step;
  cbn [th_pc th_env th_surface th_dataSpace pfn resolved];
  repeat split_null;
  unfold move, see;
  cbn [fst snd th_pc th_env th_surface th_dataSpace th_seen th_events app
       pfn resolved].

Ltac sequential_side :=
  unfold lookup_result, two_step_events, dispatch;
  repeat first
    [ progress run_shim
    | progress change (is_null NULL) with true
    | split_null ];
  cbn [status_of statics_of events_of fst snd app].

Ltac null_facts :=
  repeat match goal with
    | H : is_null ?x = true |- _ => apply is_null_true in H; rewrite ?H
    end.

(** The machine, run on one thread, is the sequential function: sixteen
    steps finish any call, with the same status, statics and events. *)
Lemma single_thread_agrees
    (P : Platform) (env thiz surface : ptr) (dataSpace : Z) (s : Statics) :
  let out := nativeSetBuffersDataSpace P env thiz surface dataSpace s in
  let c := run P (repeat 0%nat 16) (start s [(env, surface, dataSpace)]) in
  shared c = statics_of out /\
  map status (threads c) = [Some (status_of out)] /\
  map th_events (threads c) = [events_of out].
Proof.
  intros out c. subst out c. rewrite entry_point_unfold.
  cbn [status_of statics_of events_of fst snd].
  rewrite dispatch_keeps_statics.
  unfold start. cbn [map spawn].
  rewrite run_single; unfold thread_step; cbn [th_pc].
  destruct (Z.eqb_spec (resolved s) 0) as [Hr | Hr];
    unfold move, see;
    cbn [fst snd th_pc th_env th_surface th_dataSpace th_seen th_events app
         pfn resolved].
  - rewrite after_resolve_fresh, resolve_symbol_fresh by exact Hr.
    cbn [events_of snd].
    do 15 thread_step_once;
      cbn [repeat run shared threads map status th_pc th_events];
      sequential_side; unfold info, warn; null_facts;
      try (destruct (call_fn _ _ _ _ =? 0); run_shim;
           cbn [status_of statics_of events_of fst snd]);
      repeat split; reflexivity.
  - rewrite after_resolve_cached, resolve_symbol_cached by exact Hr.
    cbn [events_of snd app].
    do 15 thread_step_once;
      cbn [repeat run shared threads map status th_pc th_events];
      sequential_side; unfold info, warn; null_facts;
      try (destruct (call_fn _ _ _ _ =? 0); run_shim;
           cbn [status_of statics_of events_of fst snd]);
      repeat split; reflexivity.
Qed.

(** *** Threads in a list *)

Lemma set_nth_length {A} (i : nat) (x : A) (l : list A) :
  length (set_nth i x l) = length l.
Proof.
  revert i. induction l as [| y l IH]; intros [| i]; cbn; try reflexivity.
  rewrite IH. reflexivity.
Qed.

Lemma Forall_set_nth {A} (Q : A -> Prop) (i : nat) (x : A) (l : list A) :
  Forall Q l -> Q x -> Forall Q (set_nth i x l).
Proof.
  intros Hl Hx. revert i.
  induction Hl as [| y l Hy Hl IH]; intros [| i]; cbn; constructor; auto.
Qed.

Lemma Exists_set_nth_new {A} (Q : A -> Prop) (i : nat) (x t : A) (l : list A) :
  nth_error l i = Some t -> Q x -> Exists Q (set_nth i x l).
Proof.
  revert i. induction l as [| y l IH]; intros [| i] Hi Hx; cbn in *;
    try discriminate.
  - apply Exists_cons_hd. exact Hx.
  - apply Exists_cons_tl. eapply IH; eassumption.
Qed.

Lemma Exists_set_nth_keep {A} (Q : A -> Prop) (i : nat) (x t : A) (l : list A) :
  Exists Q l -> nth_error l i = Some t -> (Q t -> Q x) ->
  Exists Q (set_nth i x l).
Proof.
  intros Hl. revert i.
  induction Hl as [y l Hy | y l Hl IH]; intros [| i] Hi Hx; cbn in *.
  - injection Hi as ->. apply Exists_cons_hd. auto.
  - apply Exists_cons_hd. exact Hy.
  - apply Exists_cons_tl. exact Hl.
  - apply Exists_cons_tl. apply IH; assumption.
Qed.

Lemma Forall_nth_error {A} (Q : A -> Prop) (i : nat) (t : A) (l : list A) :
  Forall Q l -> nth_error l i = Some t -> Q t.
Proof.
  intros Hl Hi. rewrite Forall_forall in Hl. apply Hl.
  eapply nth_error_In. exact Hi.
Qed.

(** *** What the two-step lookup finds, by cases *)

Lemma lookup_result_default (P : Platform) :
  dlsym P RTLD_DEFAULT symbol_name <> NULL ->
  lookup_result P = dlsym P RTLD_DEFAULT symbol_name.
Proof.
  intros H. apply is_null_false in H. unfold lookup_result. rewrite H.
  reflexivity.
Qed.

Lemma lookup_result_no_library (P : Platform) :
  dlsym P RTLD_DEFAULT symbol_name = NULL ->
  dlopen P library_name (RTLD_LAZY P) = NULL ->
  lookup_result P = NULL.
Proof.
  intros H1 H2. apply is_null_true in H1, H2. unfold lookup_result.
  rewrite H1, H2. reflexivity.
Qed.

Lemma lookup_result_library (P : Platform) :
  dlsym P RTLD_DEFAULT symbol_name = NULL ->
  dlopen P library_name (RTLD_LAZY P) <> NULL ->
  lookup_result P =
    dlsym P (LibHandle (dlopen P library_name (RTLD_LAZY P))) symbol_name.
Proof.
  intros H1 H2. apply is_null_true in H1. apply is_null_false in H2.
  unfold lookup_result. rewrite H1, H2. reflexivity.
Qed.

(** *** The invariant *)

Lemma lookups_of_move (t : Thread) (l : pc) (evs : list Event) :
  lookups_of (move t l evs) =
    (lookups_of t + count is_default_lookup evs)%nat.
Proof. unfold lookups_of, move. cbn [th_events]. apply count_app. Qed.

(** A step of one thread does not disturb what holds of the others: the
    flag stays set, and [pfn] stays non-null where the default scope has
    the symbol. *)
Lemma pc_inv_stable (P : Platform) (s s' : Statics) (u : Thread) :
  (resolved s = 1 -> resolved s' = 1) ->
  (dlsym P RTLD_DEFAULT symbol_name <> NULL -> pfn s <> NULL -> pfn s' <> NULL) ->
  pc_inv P s u -> pc_inv P s' u.
Proof.
  intros Hr Hp. unfold pc_inv. destruct (th_pc u); intuition.
Qed.

Lemma initial_invariant (P : Platform) (calls : list (ptr * ptr * Z)) :
  invariant P (start initial calls).
Proof.
  constructor; cbn [start shared threads initial pfn resolved]; auto.
  apply Forall_forall. intros t Ht. apply in_map_iff in Ht.
  destruct Ht as ([[env surface] d] & <- & _).
  split; reflexivity.
Qed.

Ltac others_stable Hths :=
  eapply Forall_impl; [| exact Hths];
  let u := fresh "u" in
  let Hu1 := fresh "Hu" in
  let Hu2 := fresh "Hu" in
  intros u [Hu1 Hu2]; split; [| exact Hu2];
  eapply pc_inv_stable; [| | exact Hu1];
  cbn [pfn resolved]; intuition congruence.

(** The stepping thread stays, or was not, pending. *)
Ltac keep_pending Hfin Hi Et :=
  let H := fresh "H" in
  destruct Hfin as [H | [H | H]]; auto;
  right; right; eapply Exists_set_nth_keep; [exact H | exact Hi |];
  unfold pending; rewrite Et; cbn [th_pc move see]; tauto.

(** Events are only added, so a thread that looked up still has. *)
Ltac keep_looking Hlook Hi Et :=
  let H := fresh "H" in
  let E := fresh "E" in
  destruct Hlook as [H | H]; auto;
  right; eapply Exists_set_nth_keep; [exact H | exact Hi |];
  unfold looking; rewrite Et;
  intros [E | [E | E]]; try discriminate E;
  right; right; rewrite ?lookups_of_move; unfold lookups_of in *;
  cbn [th_events see move] in *; lia.

(** The stepping thread's own clause, at a program point past the block. *)
Ltac own_clause Hseen :=
  split;
    [| unfold seen_inv, past_line_62 in *; cbn [th_seen th_pc move see] in *;
       destruct (th_seen _);
       solve [ exact Hseen | reflexivity
             | match goal with
               | E : th_pc _ = _ |- _ => rewrite E in Hseen; discriminate Hseen
               end ] ];
  repeat match goal with H : _ /\ _ |- _ => destruct H end;
  unfold pc_inv; cbn [th_pc move see resolved pfn];
  rewrite ?lookups_of_move; unfold lookups_of, count in *;
  cbn [th_events see move filter length is_default_lookup info warn] in *;
  repeat split; try lia; try congruence; try tauto.

Lemma step_invariant (P : Platform) (i : nat) (c : Config) :
  invariant P c -> invariant P (step P i c).
Proof.
  intros Inv.
  destruct (dead c) eqn:D; [rewrite step_dead by exact D; exact Inv |].
  unfold step. rewrite D. clear D.
  destruct (nth_error (threads c) i) as [t |] eqn:Hi; [| exact Inv].
  destruct Inv as [Hths Hpfn Hflag Hfin Hlook].
  destruct (Forall_nth_error _ _ _ _ Hths Hi) as [Hpc Hseen].
  destruct c as [s ths]. cbn [shared threads] in *.
  unfold thread_step. unfold pc_inv in Hpc.
  destruct (th_pc t) eqn:Et.
  - (* L38 *)
    constructor; cbn [shared threads]; try assumption.
    + apply Forall_set_nth; [others_stable Hths |].
      destruct (Z.eqb_spec (resolved s) 0); own_clause Hseen.
    + keep_pending Hfin Hi Et.
    + keep_looking Hlook Hi Et.
  - (* L39 *)
    constructor; cbn [shared threads pfn resolved]; try assumption; auto.
    + apply Forall_set_nth; [others_stable Hths | own_clause Hseen].
    + right. right. eapply Exists_set_nth_new; [exact Hi | exact I].
    + right. eapply Exists_set_nth_new; [exact Hi |]. right. left. reflexivity.
  - (* L41 *)
    constructor; cbn [shared threads pfn resolved]; try assumption; auto.
    + apply Forall_set_nth; [others_stable Hths | own_clause Hseen].
    + right. right. eapply Exists_set_nth_new; [exact Hi | exact I].
    + right. eapply Exists_set_nth_new; [exact Hi |]. right. right.
      rewrite lookups_of_move. cbn. lia.
  - (* L41_store *)
    destruct Hpc as (Hc & Hr & ->).
    constructor; cbn [shared threads pfn resolved]; try assumption; auto.
    + apply Forall_set_nth; [others_stable Hths | own_clause Hseen].
    + destruct (Z.eq_dec (dlsym P RTLD_DEFAULT symbol_name) NULL) as [E | E];
        [left; exact E | right; symmetry; apply lookup_result_default; exact E].
    + right. right. eapply Exists_set_nth_new; [exact Hi | exact I].
    + keep_looking Hlook Hi Et.
  - (* L44 *)
    destruct Hpc as (Hc & Hr & Hd).
    constructor; cbn [shared threads pfn resolved]; try assumption; auto.
    + apply Forall_set_nth; [others_stable Hths |].
      destruct (is_null (pfn s)) eqn:En; [| own_clause Hseen].
      apply is_null_true in En.
      destruct (Z.eq_dec (dlsym P RTLD_DEFAULT symbol_name) NULL) as [E | E];
        [own_clause Hseen | tauto].
    + destruct (is_null (pfn s)) eqn:En.
      * right. right. eapply Exists_set_nth_new; [exact Hi | exact I].
      * apply is_null_false in En. left. tauto.
    + keep_looking Hlook Hi Et.
  - (* L45 *)
    destruct Hpc as (Hc & Hr & Hd).
    constructor; cbn [shared threads pfn resolved]; try assumption; auto.
    + apply Forall_set_nth; [others_stable Hths |].
      destruct (is_null (dlopen P library_name (RTLD_LAZY P))) eqn:En;
        [| apply is_null_false in En]; own_clause Hseen.
    + destruct (is_null (dlopen P library_name (RTLD_LAZY P))) eqn:En.
      * apply is_null_true in En. left.
        rewrite (lookup_result_no_library P Hd En) in *. tauto.
      * right. right. eapply Exists_set_nth_new; [exact Hi | exact I].
    + keep_looking Hlook Hi Et.
  - (* L47 *)
    destruct Hpc as (Hc & Hr & Hd & -> & Hl).
    constructor; cbn [shared threads pfn resolved]; try assumption; auto.
    + apply Forall_set_nth; [others_stable Hths | own_clause Hseen].
    + right. right. eapply Exists_set_nth_new; [exact Hi | exact I].
    + keep_looking Hlook Hi Et.
  - (* L47_store *)
    destruct Hpc as (Hc & Hr & Hd & Hl & ->).
    constructor; cbn [shared threads pfn resolved]; try assumption; auto.
    + apply Forall_set_nth; [others_stable Hths | own_clause Hseen].
    + right. symmetry. apply lookup_result_library; assumption.
    + left. symmetry. apply lookup_result_library; assumption.
    + keep_looking Hlook Hi Et.
  - (* L49 *)
    constructor; cbn [shared threads]; try assumption.
    + apply Forall_set_nth; [others_stable Hths |].
      destruct (is_null (pfn s)); own_clause Hseen.
    + keep_pending Hfin Hi Et.
    + keep_looking Hlook Hi Et.
  - (* L55 *)
    constructor; cbn [shared threads]; try assumption.
    + apply Forall_set_nth; [others_stable Hths |].
      destruct (is_null (pfn s)); own_clause Hseen.
    + keep_pending Hfin Hi Et.
    + keep_looking Hlook Hi Et.
  - (* L62 *)
    constructor; cbn [shared threads]; try assumption.
    + apply Forall_set_nth; [others_stable Hths |].
      assert (Hs : forall l, seen_inv P (move (see t (pfn s)) l [])).
      { intros l. unfold seen_inv. cbn [th_seen move see]. exact Hpfn. }
      destruct (is_null (pfn s)); (split; [| apply Hs]);
        unfold pc_inv; cbn [th_pc move see]; rewrite lookups_of_move;
        unfold lookups_of, count in *; cbn [th_events see filter length];
        split; try lia; tauto.
    + keep_pending Hfin Hi Et.
    + keep_looking Hlook Hi Et.
  - (* L66 *)
    destruct (is_null (ANativeWindow_fromSurface P (th_env t) (th_surface t)));
      (constructor; cbn [shared threads]; try assumption;
       [ apply Forall_set_nth; [others_stable Hths | own_clause Hseen]
       | keep_pending Hfin Hi Et
       | keep_looking Hlook Hi Et ]).
  - (* L72 *)
    constructor; cbn [shared threads]; try assumption;
      [ apply Forall_set_nth; [others_stable Hths | own_clause Hseen]
      | keep_pending Hfin Hi Et
      | keep_looking Hlook Hi Et ].
  - (* L72_call *)
    destruct (is_null f).
    + constructor; cbn [shared threads]; try assumption.
      * apply Forall_set_nth; [exact Hths |]. split; [| exact Hseen].
        unfold pc_inv. rewrite Et. exact Hpc.
      * destruct Hfin as [H | [H | H]]; auto.
        right. right. eapply Exists_set_nth_keep; [exact H | exact Hi | tauto].
      * destruct Hlook as [H | H]; auto.
        right. eapply Exists_set_nth_keep; [exact H | exact Hi | tauto].
    + constructor; cbn [shared threads]; try assumption;
        [ apply Forall_set_nth; [others_stable Hths | own_clause Hseen]
        | keep_pending Hfin Hi Et
        | keep_looking Hlook Hi Et ].
  - (* L73 *)
    constructor; cbn [shared threads]; try assumption;
      [ apply Forall_set_nth; [others_stable Hths | own_clause Hseen]
      | keep_pending Hfin Hi Et
      | keep_looking Hlook Hi Et ].
  - (* L75 *)
    constructor; cbn [shared threads]; try assumption;
      [ apply Forall_set_nth; [others_stable Hths |];
        destruct (result =? 0); own_clause Hseen
      | keep_pending Hfin Hi Et
      | keep_looking Hlook Hi Et ].
  - (* Returned *)
    constructor; cbn [shared threads]; try assumption.
    + apply Forall_set_nth; [exact Hths |]. split; [| exact Hseen].
      unfold pc_inv. rewrite Et. exact Hpc.
    + destruct Hfin as [H | [H | H]]; auto.
      right. right. eapply Exists_set_nth_keep; [exact H | exact Hi | tauto].
    + destruct Hlook as [H | H]; auto.
      right. eapply Exists_set_nth_keep; [exact H | exact Hi | tauto].
Qed.

Lemma run_invariant (P : Platform) (schedule : list nat) (c : Config) :
  invariant P c -> invariant P (run P schedule c).
Proof.
  revert c. induction schedule as [| i rest IH]; intros c Inv; cbn [run].
  - exact Inv.
  - apply IH. apply step_invariant. exact Inv.
Qed.

Lemma step_thread_count (P : Platform) (i : nat) (c : Config) :
  length (threads (step P i c)) = length (threads c).
Proof.
  unfold step. destruct (dead c); [reflexivity |].
  destruct (nth_error (threads c) i) as [t |]; [| reflexivity].
  destruct (thread_step P t (shared c)). cbn [threads]. apply set_nth_length.
Qed.

Lemma run_thread_count (P : Platform) (schedule : list nat) (c : Config) :
  length (threads (run P schedule c)) = length (threads c).
Proof.
  revert c. induction schedule as [| i rest IH]; intros c; cbn [run].
  - reflexivity.
  - rewrite IH. apply step_thread_count.
Qed.

(** Each thread looks up at most once, so K threads look up at most K
    times; one that did makes the total at least one. *)
Lemma lookups_upper (ths : list Thread) :
  Forall (fun t => (lookups_of t <= 1)%nat) ths ->
  (list_sum (map lookups_of ths) <= length ths)%nat.
Proof.
  induction 1 as [| t ths Ht _ IH]; unfold list_sum in *;
    cbn [map fold_right length]; lia.
Qed.

Lemma lookups_lower (ths : list Thread) :
  Exists (fun t => (1 <= lookups_of t)%nat) ths ->
  (1 <= list_sum (map lookups_of ths))%nat.
Proof.
  induction 1 as [t ths Ht | t ths _ IH]; unfold list_sum in *;
    cbn [map fold_right]; lia.
Qed.

Lemma pc_inv_lookups (P : Platform) (s : Statics) (t : Thread) :
  pc_inv P s t -> (lookups_of t <= 1)%nat.
Proof.
  unfold pc_inv. cbv zeta. destruct (th_pc t); intros H;
    repeat match goal with H : _ /\ _ |- _ => destruct H end; lia.
Qed.

Lemma pc_inv_returned (P : Platform) (s : Statics) (t : Thread) :
  pc_inv P s t -> returned t = true -> resolved s = 1.
Proof.
  unfold pc_inv, returned. cbv zeta. destruct (th_pc t); intros H E;
    try discriminate E. tauto.
Qed.

(** *** How far an interleaving can run *)

Lemma run_app (P : Platform) (a b : list nat) (c : Config) :
  run P (a ++ b) c = run P b (run P a c).
Proof.
  revert c. induction a as [| i a IH]; intros c; cbn [app run].
  - reflexivity.
  - apply IH.
Qed.

(** A thread that has not returned and is not calling through a null
    pointer moves to a program point of lower rank, whatever the statics
    hold. *)
Lemma thread_step_rank (P : Platform) (t : Thread) (s : Statics) :
  returned t = false -> crashed t = false ->
  (rank (th_pc (fst (thread_step P t s))) < rank (th_pc t))%nat.
Proof.
  unfold returned, crashed, thread_step. intros H C.
  destruct (th_pc t); try discriminate H; try rewrite C;
    cbn [fst th_pc move see rank];
    repeat match goal with
      | |- context [if ?b then _ else _] => destruct b
      end;
    cbn [th_pc move see rank]; lia.
Qed.

Lemma list_sum_set_nth {A} (g : A -> nat) (i : nat) (x t : A) (l : list A) :
  nth_error l i = Some t ->
  (list_sum (map g (set_nth i x l)) + g t = list_sum (map g l) + g x)%nat.
Proof.
  revert i. induction l as [| y l IH]; intros [| i] Hi; cbn in Hi;
    try discriminate Hi.
  - injection Hi as ->. cbn [set_nth map]. unfold list_sum. cbn [fold_right]. lia.
  - specialize (IH i Hi). cbn [set_nth map]. unfold list_sum in *.
    cbn [fold_right]. lia.
Qed.

Lemma alive_thread (c : Config) (i : nat) (t : Thread) :
  dead c = false -> nth_error (threads c) i = Some t -> crashed t = false.
Proof.
  unfold dead. intros D Hi.
  destruct (crashed t) eqn:C; [| reflexivity].
  assert (E : existsb crashed (threads c) = true).
  { apply existsb_exists. exists t. split; [| exact C].
    eapply nth_error_In. exact Hi. }
  congruence.
Qed.

Lemma step_steps_left (P : Platform) (i : nat) (c : Config) (t : Thread) :
  dead c = false ->
  nth_error (threads c) i = Some t -> returned t = false ->
  (steps_left (step P i c) < steps_left c)%nat.
Proof.
  intros D Hi Hr. unfold step, steps_left. rewrite D, Hi.
  pose proof (thread_step_rank P t (shared c) Hr (alive_thread c i t D Hi))
    as Hlt.
  destruct (thread_step P t (shared c)) as [t' s']. cbn [fst threads] in *.
  pose proof (list_sum_set_nth (fun u => rank (th_pc u)) i t' t _ Hi) as E.
  cbv beta in E. lia.
Qed.

Lemma not_all_returned (ths : list Thread) :
  forallb returned ths = false ->
  exists i t, nth_error ths i = Some t /\ returned t = false.
Proof.
  induction ths as [| u ths IH]; cbn [forallb]; [discriminate |].
  destruct (returned u) eqn:E; cbn [andb]; intros H.
  - destruct (IH H) as (i & t & Hi & Ht). exists (S i), t. auto.
  - exists 0%nat, u. auto.
Qed.

(** Every interleaving can be run on until all threads have returned or
    the process has died of a call through a null pointer. *)
Lemma runs_to_return_or_death (P : Platform) (n : nat) (c : Config) :
  (steps_left c <= n)%nat ->
  exists rest,
    all_returned (run P rest c) = true \/ dead (run P rest c) = true.
Proof.
  revert c. induction n as [| n IH]; intros c Hn;
    destruct (all_returned c) eqn:E;
    try (exists []; left; exact E);
    destruct (dead c) eqn:D;
    try (exists []; right; exact D);
    destruct (not_all_returned _ E) as (i & t & Hi & Ht);
    pose proof (step_steps_left P i c t D Hi Ht) as Hlt.
  - lia.
  - destruct (IH (step P i c)) as [rest Hrest]; [lia |].
    exists (i :: rest). exact Hrest.
Qed.

(** C2, as the code has it.  K >= 1 threads each make one call, their
    steps interleaved in any order.  Once all have returned: between 1 and
    K resolution attempts (default-scope lookups) were made; the statics
    hold the terminal outcome of the two-step lookup; and what each thread
    read at line 62, the outcome it acted on, is that outcome or a null
    pointer. *)
Theorem interleaved_resolution
    (P : Platform) (calls : list (ptr * ptr * Z)) (schedule : list nat) :
  calls <> [] ->
  let c := run P schedule (start initial calls) in
  all_returned c = true ->
  (1 <= lookups c <= length calls)%nat /\
  shared c = {| pfn := lookup_result P; resolved := 1 |} /\
  Forall (fun t => th_seen t = Some NULL \/ th_seen t = Some (lookup_result P))
    (threads c).
Proof.
  intros Hne.
  intros c Hall.
  pose proof (run_invariant P schedule _ (initial_invariant P calls)) as Inv.
  fold c in Inv. destruct Inv as [Hths Hpfn Hflag Hfin Hlook].
  assert (Hlen : length (threads c) = length calls).
  { unfold c. rewrite run_thread_count. unfold start. cbn [threads].
    apply length_map. }
  unfold all_returned in Hall. rewrite forallb_forall in Hall.
  assert (Hres : resolved (shared c) = 1).
  { destruct (threads c) as [| t ths] eqn:E.
    - destruct calls; [congruence | discriminate Hlen].
    - inversion Hths as [| ? ? [Ht _] _]; subst.
      apply (pc_inv_returned P _ t Ht). apply Hall. left. reflexivity. }
  assert (Hnone : forall t, In t (threads c) -> ~ pending t).
  { intros t Ht Hp. specialize (Hall t Ht). unfold returned in Hall.
    unfold pending in Hp. destruct (th_pc t); try discriminate Hall; exact Hp. }
  split; [split |]; [| | split].
  - apply lookups_lower.
    destruct Hlook as [H | H]; [congruence |].
    apply Exists_exists in H. destruct H as (t & Ht & Hl).
    apply Exists_exists. exists t. split; [exact Ht |].
    specialize (Hall t Ht). unfold returned in Hall.
    destruct Hl as [E | [E | E]]; try (rewrite E in Hall; discriminate Hall).
    exact E.
  - rewrite <- Hlen. apply lookups_upper.
    eapply Forall_impl; [| exact Hths].
    intros t [Ht _]. apply (pc_inv_lookups P _ t Ht).
  - destruct Hfin as [H | [H | H]].
    + destruct (shared c) as [f r]. cbn [pfn resolved] in *. congruence.
    + congruence.
    + apply Exists_exists in H. destruct H as (t & Ht & Hp).
      destruct (Hnone t Ht Hp).
  - apply Forall_forall. intros t Ht.
    rewrite Forall_forall in Hths. destruct (Hths t Ht) as [_ Hs].
    unfold seen_inv in Hs. specialize (Hall t Ht).
    unfold returned in Hall. unfold past_line_62 in Hs.
    destruct (th_seen t) as [f |].
    + destruct Hs as [-> | ->]; auto.
    + destruct (th_pc t); discriminate.
Qed.

Lemma interleaved_resolution_witness :
  let c := run race_platform race_schedule (start initial race_calls) in
  (1 <= lookups c <= length race_calls)%nat /\
  shared c = {| pfn := lookup_result race_platform; resolved := 1 |} /\
  Forall (fun t => th_seen t = Some NULL \/
                   th_seen t = Some (lookup_result race_platform))
    (threads c).
Proof.
  refine (interleaved_resolution race_platform race_calls race_schedule _ _).
  - discriminate.
  - vm_compute. reflexivity.
Defined.

Lemma same_outcome_observed (c : Config) :
  same_outcome c ->
  Forall (fun o => o = Some (resolver_state (shared c)))
    (map observed (threads c)).
Proof.
  intros H. apply Forall_forall. intros o Ho.
  apply in_map_iff in Ho. destruct Ho as (t & <- & Ht). apply H. exact Ht.
Qed.

(** The race.  The symbol is present.  Thread 0 sets the flag and is
    preempted before it stores the pointer; thread 1 finds the flag set,
    reads a null [pfn] and returns -2; thread 0 then resolves the symbol
    and returns 0.  The two threads acted on different outcomes, and the
    one thread 1 acted on is not the terminal one. *)
Lemma race_observes_torn_state :
  let c := run race_platform race_schedule (start initial race_calls) in
  all_returned c = true /\
  lookups c = 1%nat /\
  resolver_state (shared c) = available 4096 /\
  map status (threads c) = [Some 0; Some (-2)] /\
  map observed (threads c) = [Some (available 4096); Some unavailable] /\
  ~ same_outcome c.
Proof.
  intros c.
  assert (R : resolver_state (shared c) = available 4096)
    by (vm_compute; reflexivity).
  assert (O : map observed (threads c) =
              [Some (available 4096); Some unavailable])
    by (vm_compute; reflexivity).
  split; [vm_compute; reflexivity |].
  split; [vm_compute; reflexivity |].
  split; [exact R |].
  split; [vm_compute; reflexivity |].
  split; [exact O |].
  intros H. apply same_outcome_observed in H.
  rewrite O, R in H.
  inversion H as [| ? ? _ H']. inversion H' as [| ? ? D _].
  discriminate D.
Qed.


(** * Further properties of the entry point *)

(** ** What the dispatch emits *)

Lemma dispatch_events_kind (P : Platform) (env surface : ptr) (d : Z) (s : Statics) :
  Forall (fun e => is_dispatch_event e = true)
    (events_of (dispatch P env surface d s)).
Proof.
  destruct (dispatch_cases P env surface d s)
    as [[_ E] | [(_ & _ & E) | (_ & _ & E)]];
    rewrite E; cbn [events_of snd]; repeat constructor.
  unfold result_log. destruct (_ =? 0); reflexivity.
Qed.

(** A call that finds the flag set is the dispatch alone. *)
Lemma run_call_cached_dispatch (c : Call) (s : Statics) :
  resolved s <> 0 ->
  run_call c s =
    dispatch (call_platform c) (call_env c) (call_surface c)
      (call_dataSpace c) s.
Proof.
  intros Hr. unfold run_call. rewrite entry_point_unfold.
  rewrite after_resolve_cached, resolve_symbol_cached by exact Hr.
  cbn [events_of snd app].
  destruct (dispatch _ _ _ _ s) as [[r s1] t]. reflexivity.
Qed.

(** Every setter call of a dispatch goes through the pointer in [pfn],
    which is then not null. *)
Lemma dispatch_events_through
    (P : Platform) (env surface : ptr) (d : Z) (s : Statics) :
  Forall (fun e => is_dispatch_event e = true /\ calls_through (pfn s) e /\
                   (is_setter_call e = true -> pfn s <> NULL))
    (events_of (dispatch P env surface d s)).
Proof.
  destruct (dispatch_cases P env surface d s)
    as [[_ E] | [(_ & _ & E) | (Hp & _ & E)]];
    rewrite E; cbn [events_of snd]; unfold result_log;
    try destruct (_ =? 0);
    repeat constructor;
    try (let H := fresh in intros H; first [discriminate H | exact Hp]).
Qed.

(** With the flag set, a run of calls emits dispatch events only, and
    every setter call in it goes through the cached pointer. *)
Lemma run_calls_cached_events (cs : list Call) (s : Statics) :
  resolved s <> 0 ->
  Forall (fun e => is_dispatch_event e = true /\ calls_through (pfn s) e /\
                   (is_setter_call e = true -> pfn s <> NULL))
    (all_events (fst (run_calls cs s))).
Proof.
  intros Hr. induction cs as [| c cs IH].
  - constructor.
  - cbn [run_calls]. rewrite (run_call_cached_dispatch c s Hr).
    pose proof (dispatch_events_through (call_platform c) (call_env c)
                  (call_surface c) (call_dataSpace c) s) as K.
    pose proof (dispatch_keeps_statics (call_platform c) (call_env c)
                  (call_surface c) (call_dataSpace c) s) as Ks.
    destruct (dispatch _ _ _ _ s) as [[r s1] t].
    cbn [events_of statics_of fst snd] in K, Ks. subst s1.
    destruct (run_calls cs s) as [rs s2]. cbn [fst] in *.
    unfold all_events. cbn [map concat snd]. fold (all_events rs).
    apply Forall_app. split; assumption.
Qed.


(** The events of a process that starts with call [c]: the two-step events,
    then dispatch events only. *)
Lemma process_events (c : Call) (cs : list Call) :
  exists rest,
    all_events (fst (run_calls (c :: cs) initial)) =
      two_step_events (call_platform c) ++ rest /\
    Forall (fun e => is_dispatch_event e = true /\
                     calls_through (lookup_result (call_platform c)) e /\
                     (is_setter_call e = true ->
                      lookup_result (call_platform c) <> NULL)) rest.
Proof.
  set (terminal := {| pfn := lookup_result (call_platform c); resolved := 1 |}).
  assert (Ht : resolved terminal <> 0) by (cbn; discriminate).
  exists (events_of (dispatch (call_platform c) (call_env c) (call_surface c)
                       (call_dataSpace c) terminal)
          ++ all_events (fst (run_calls cs terminal))).
  split.
  - cbn [run_calls]. unfold run_call at 1. rewrite entry_point_unfold.
    rewrite after_resolve_fresh, resolve_symbol_fresh by reflexivity.
    rewrite dispatch_keeps_statics. fold terminal.
    destruct (run_calls cs terminal) as [rs s2]. cbn [fst].
    unfold all_events. cbn [map concat snd events_of].
    rewrite app_assoc. reflexivity.
  - pose proof (run_calls_cached_events [c] terminal Ht) as K.
    cbn [run_calls] in K. rewrite (run_call_cached_dispatch c terminal Ht) in K.
    destruct (dispatch _ _ _ _ terminal) as [[r s1] t].
    cbn [fst all_events map concat snd events_of] in K |- *.
    unfold all_events in K. cbn [map concat snd] in K. rewrite app_nil_r in K.
    apply Forall_app. split; [exact K |].
    apply (run_calls_cached_events cs terminal Ht).
Qed.

(** ** The resolution is logged once per process *)



(** ** The dispatch logs its outcome *)

(** X2.  A call made with the symbol resolved and available logs exactly
    one line, and that line is a warning exactly when the status is not
    0: either the surface has no window or the setter refused. *)
Theorem one_log_line_per_dispatch
    (P : Platform) (env thiz surface : ptr) (dataSpace : Z) (s : Statics) :
  resolved s <> 0 ->
  pfn s <> NULL ->
  let out := nativeSetBuffersDataSpace P env thiz surface dataSpace s in
  count is_log (events_of out) = 1%nat /\
  (status_of out = 0 -> filter is_log (events_of out) =
                          [EvLog ANDROID_LOG_INFO TAG success_message [dataSpace]]) /\
  (status_of out <> 0 -> count is_warning (events_of out) = 1%nat).
Proof.
  intros Hr Hp out. subst out. rewrite entry_point_unfold.
  rewrite after_resolve_cached, resolve_symbol_cached by exact Hr.
  cbn [status_of events_of fst snd app].
  destruct (dispatch_cases P env surface dataSpace s)
    as [[Hn _] | [(_ & _ & E) | (_ & _ & E)]]; [contradiction | |];
    rewrite E; cbn [status_of events_of fst snd].
  - repeat split; try reflexivity. intros H; discriminate H.
  - unfold result_log, count.
    destruct (Z.eqb_spec (call_fn P (pfn s) (ANativeWindow_fromSurface P env surface)
                            (to_int32 dataSpace)) 0) as [E0 | E0];
      cbn [filter is_log is_warning length]; repeat split; try reflexivity;
      intros H; congruence.
Qed.

Lemma one_log_line_per_dispatch_witness :
  let out := nativeSetBuffersDataSpace (symbol_present hdr_only) 1 2 3 7
               {| pfn := 4096; resolved := 1 |} in
  count is_log (events_of out) = 1%nat /\
  (status_of out = 0 -> filter is_log (events_of out) =
                          [EvLog ANDROID_LOG_INFO TAG success_message [7]]) /\
  (status_of out <> 0 -> count is_warning (events_of out) = 1%nat).
Proof.
  apply (one_log_line_per_dispatch (symbol_present hdr_only) 1 2 3 7
           {| pfn := 4096; resolved := 1 |}); discriminate.
Defined.

(** ** Calling again *)

(** X3.  A second call with the same arguments on the same platform
    returns the status of the first and leaves the statics as the first
    left them; what it emits is what the first emitted after its resolver
    block.  So repeated calls differ from the first only by the one-off
    resolution. *)
Theorem second_call_repeats_first
    (P : Platform) (env thiz surface : ptr) (dataSpace : Z) (s : Statics) :
  let first := nativeSetBuffersDataSpace P env thiz surface dataSpace s in
  let second :=
    nativeSetBuffersDataSpace P env thiz surface dataSpace (statics_of first) in
  status_of second = status_of first /\
  statics_of second = statics_of first /\
  events_of first = events_of (resolve_symbol P s) ++ events_of second /\
  count is_lookup_work (events_of second) = 0%nat.
Proof.
  intros first second. subst second first.
  rewrite (entry_point_unfold P env thiz surface dataSpace s).
  cbn [status_of statics_of events_of fst snd].
  rewrite dispatch_keeps_statics.
  rewrite entry_point_unfold.
  rewrite after_resolve_cached, resolve_symbol_cached
    by apply after_resolve_flag.
  cbn [status_of statics_of events_of fst snd app].
  rewrite dispatch_keeps_statics. repeat split.
  apply count_filter_nil. apply dispatch_no_lookup_work.
Qed.

(** ** One function pointer for the life of the process *)

(** X4.  In a process that makes the calls [c :: cs] one after the other,
    none overlapping another, every setter call goes through the pointer
    the first call resolved, whatever the platforms of the later calls
    would answer to a lookup; and that pointer is not null. *)
Theorem setter_pointer_is_stable (c : Call) (cs : list Call) :
  Forall (fun e =>
            match e with
            | EvCall f _ _ _ =>
                f = lookup_result (call_platform c) /\ f <> NULL
            | _ => True
            end)
    (all_events (fst (run_calls (c :: cs) initial))).
Proof.
  destruct (process_events c cs) as (rest & -> & Hrest).
  apply Forall_app. split.
  - pose proof (two_step_events_kind (call_platform c)) as K.
    eapply Forall_impl; [| exact K].
    intros [] He; cbn in He; try discriminate He; exact I.
  - eapply Forall_impl; [| exact Hrest].
    intros [] (_ & Hc & Hn); try exact I.
    cbn in Hc, Hn. subst. split; [reflexivity | apply Hn; reflexivity].
Qed.

(** ** No window reference is leaked *)

(** Counting references goes point by point. *)
Lemma refcounts_after_pointwise (t : list Event) (rc1 rc2 : RefCounts) :
  (forall x, rc1 x = rc2 x) ->
  forall x, refcounts_after rc1 t x = refcounts_after rc2 t x.
Proof.
  unfold refcounts_after. revert rc1 rc2.
  induction t as [| e t IH]; intros rc1 rc2 H x; cbn [fold_left]; [apply H |].
  apply IH. intros y.
  destruct e as [| | | ? ? w | | w]; cbn [count_reference]; try apply H.
  - destruct (is_null w); [apply H |]. unfold adjust. rewrite H. reflexivity.
  - unfold adjust. rewrite H. reflexivity.
Qed.

(** One call, whichever way it goes, leaves every count as it was. *)
Lemma call_keeps_refcounts
    (P : Platform) (env thiz surface : ptr) (dataSpace : Z) (s : Statics)
    (rc : RefCounts) (x : ptr) :
  refcounts_after rc
    (events_of (nativeSetBuffersDataSpace P env thiz surface dataSpace s)) x
  = rc x.
Proof.
  rewrite entry_point_unfold. cbn [events_of snd].
  rewrite refcounts_after_app.
  rewrite (refcounts_after_other rc _ (resolve_events_kind P s)).
  destruct (dispatch_cases P env surface dataSpace (after_resolve P s))
    as [[_ E] | [(_ & _ & E) | (_ & Hw & E)]];
    rewrite E; cbn [events_of snd]; unfold refcounts_after;
    cbn [fold_left count_reference].
  - reflexivity.
  - reflexivity.
  - apply is_null_false in Hw. rewrite Hw.
    unfold result_log. destruct (_ =? 0); cbn [count_reference];
      apply adjust_back.
Qed.

(** X5.  Whatever calls a process makes, on whatever platforms and from
    whatever statics, and however each of them ends (symbol unavailable, no
    window, setter failure or success), every native-window reference count
    is at the end what it was at the start. *)
Theorem no_reference_leak (cs : list Call) (s : Statics) (rc : RefCounts) :
  forall x,
    refcounts_after rc (all_events (fst (run_calls cs s))) x = rc x.
Proof.
  revert s rc. induction cs as [| c cs IH]; intros s rc x.
  - reflexivity.
  - cbn [run_calls].
    pose proof (call_keeps_refcounts (call_platform c) (call_env c)
                  (call_thiz c) (call_surface c) (call_dataSpace c) s rc) as K.
    fold (run_call c s) in K.
    destruct (run_call c s) as [[r s1] t]. cbn [events_of snd] in K.
    specialize (IH s1). destruct (run_calls cs s1) as [rs s2].
    cbn [fst] in *. unfold all_events in *. cbn [map concat snd].
    rewrite refcounts_after_app.
    rewrite (refcounts_after_pointwise _ _ rc K). apply IH.
Qed.

(** * Further properties of concurrent callers *)

(** ** No thread leaks a window reference *)

Lemma balance_move (t : Thread) (l : pc) (evs : list Event)
    (F : RefCounts -> RefCounts) (rc : RefCounts) (x : ptr) :
  (forall rc' y, refcounts_after rc' (th_events t) y = F rc' y) ->
  refcounts_after rc (th_events (move t l evs)) x = refcounts_after (F rc) evs x.
Proof.
  intros H. unfold move. cbn [th_events]. rewrite refcounts_after_app.
  apply refcounts_after_pointwise. intros y. apply H.
Qed.

(** A step keeps the account of the stepping thread, whatever the statics
    hold. *)
Lemma thread_step_balance (P : Platform) (t : Thread) (s : Statics) :
  balance_inv t -> balance_inv (fst (thread_step P t s)).
Proof.
  unfold balance_inv, held, thread_step. intros H.
  destruct (th_pc t) eqn:Et; cbn [fst];
    try (intros rc x; cbn [th_pc move see];
         rewrite (balance_move _ _ _ _ rc x H); reflexivity).
  - (* L38 *)
    intros rc x. destruct (resolved s =? 0); cbn [th_pc move];
      rewrite (balance_move _ _ _ _ rc x H); reflexivity.
  - (* L44 *)
    intros rc x. destruct (is_null (pfn s)); cbn [th_pc move];
      rewrite (balance_move _ _ _ _ rc x H); reflexivity.
  - (* L45 *)
    intros rc x. destruct (is_null (dlopen P library_name (RTLD_LAZY P)));
      cbn [th_pc move]; rewrite (balance_move _ _ _ _ rc x H); reflexivity.
  - (* L49 *)
    intros rc x. cbn [th_pc move]. rewrite (balance_move _ _ _ _ rc x H).
    destruct (is_null (pfn s)); reflexivity.
  - (* L55 *)
    intros rc x. cbn [th_pc move]. rewrite (balance_move _ _ _ _ rc x H).
    destruct (is_null (pfn s)); reflexivity.
  - (* L62 *)
    intros rc x.
    assert (H' : forall rc' y,
               refcounts_after rc' (th_events (see t (pfn s))) y = rc' y)
      by (intros; apply H).
    destruct (is_null (pfn s)); cbn [th_pc move];
      rewrite (balance_move _ _ _ _ rc x H'); reflexivity.
  - (* L66 *)
    intros rc x.
    destruct (is_null (ANativeWindow_fromSurface P (th_env t) (th_surface t)))
      eqn:Ew; cbn [th_pc move]; rewrite (balance_move _ _ _ _ rc x H);
      unfold refcounts_after; cbn [fold_left count_reference]; rewrite Ew;
      reflexivity.
  - (* L72_call *)
    intros rc x. destruct (is_null f); cbn [fst].
    + rewrite Et. apply H.
    + cbn [th_pc move]. rewrite (balance_move _ _ _ _ rc x H). reflexivity.
  - (* L73 *)
    intros rc x. cbn [th_pc move]. rewrite (balance_move _ _ _ _ rc x H).
    unfold refcounts_after. cbn [fold_left count_reference]. apply adjust_back.
  - (* L75 *)
    intros rc x. cbn [th_pc move]. rewrite (balance_move _ _ _ _ rc x H).
    destruct (result =? 0); reflexivity.
  - (* Returned *)
    intros rc x. rewrite Et. apply H.
Qed.

Lemma step_balance (P : Platform) (i : nat) (c : Config) :
  Forall balance_inv (threads c) -> Forall balance_inv (threads (step P i c)).
Proof.
  intros H. unfold step. destruct (dead c); [exact H |].
  destruct (nth_error (threads c) i) as [t |] eqn:Hi; [| exact H].
  pose proof (thread_step_balance P t (shared c)
                (Forall_nth_error _ _ _ _ H Hi)) as Ht.
  destruct (thread_step P t (shared c)) as [t' s']. cbn [fst threads] in *.
  apply Forall_set_nth; assumption.
Qed.

(** X6.  In every interleaving of any calls, from any statics, the events
    of each thread account for exactly the window reference it holds:
    one reference on its window between lines 66 and 73, none before and
    none after.  A thread that has returned has released what it
    acquired, whatever the other threads did to the statics meanwhile. *)
Theorem interleaved_calls_leak_nothing
    (P : Platform) (s : Statics) (calls : list (ptr * ptr * Z))
    (schedule : list nat) :
  Forall (fun t =>
            forall rc x,
              refcounts_after rc (th_events t) x =
                match held t with
                | Some w => adjust rc w 1 x
                | None => rc x
                end)
    (threads (run P schedule (start s calls))).
Proof.
  change (Forall balance_inv (threads (run P schedule (start s calls)))).
  assert (H0 : Forall balance_inv (threads (start s calls))).
  { unfold start. cbn [threads]. apply Forall_forall. intros t Ht.
    apply in_map_iff in Ht. destruct Ht as ([[env surface] d] & <- & _).
    intros rc x. reflexivity. }
  revert H0. generalize (start s calls).
  induction schedule as [| i rest IH]; intros c H; cbn [run].
  - exact H.
  - apply IH. apply step_balance. exact H.
Qed.

(** ** Which pointers interleaved calls go through *)

Lemma call_inv_stable (P : Platform) (s s' : Statics) (u : Thread) :
  (dlsym P RTLD_DEFAULT symbol_name <> NULL -> pfn s <> NULL -> pfn s' <> NULL) ->
  call_inv P s u -> call_inv P s' u.
Proof.
  unfold call_inv. cbv zeta. intros Hp (H1 & H2 & H3).
  split; [exact H1 |]. split; [exact H2 |].
  destruct (th_pc u); intuition.
Qed.

Lemma call_inv_move (P : Platform) (s : Statics) (t : Thread) (evs : list Event) :
  call_inv P s t ->
  Forall (call_ok P) evs ->
  Forall null_free evs ->
  Forall (call_ok P) (th_events t ++ evs) /\
  Forall null_free (th_events t ++ evs).
Proof.
  unfold call_inv. cbv zeta. intros (H1 & H2 & _) E1 E2.
  split; apply Forall_app; split; assumption.
Qed.

(** The stepping thread's own clause after a step that emits [evs] and
    moves to [l]. *)
Ltac own_calls P Hc :=
  unfold call_inv; cbv zeta; cbn [th_pc th_events move see];
  match goal with
  | |- Forall _ (?old ++ ?evs) /\ _ =>
      let A := fresh "A" in
      let B := fresh "B" in
      assert (A : Forall (call_ok P) evs)
        by (repeat first [apply Forall_nil | apply Forall_cons];
            cbn [call_ok info warn]; auto; tauto);
      assert (B : Forall null_free evs)
        by (repeat first [apply Forall_nil | apply Forall_cons];
            cbn [null_free info warn]; auto; tauto);
      destruct (call_inv_move P _ _ evs Hc A B) as [? ?];
      split; [assumption |]; split; [assumption |]
  end.

Lemma step_call_inv (P : Platform) (i : nat) (c : Config) :
  invariant P c ->
  Forall (call_inv P (shared c)) (threads c) ->
  Forall (call_inv P (shared (step P i c))) (threads (step P i c)).
Proof.
  intros Inv Hall. unfold step. destruct (dead c); [exact Hall |].
  destruct (nth_error (threads c) i) as [t |] eqn:Hi; [| exact Hall].
  destruct Inv as [Hths Hpfn Hflag Hfin Hlook].
  destruct (Forall_nth_error _ _ _ _ Hths Hi) as [Hpc _].
  pose proof (Forall_nth_error _ _ _ _ Hall Hi) as Hc.
  destruct c as [s ths]. cbn [shared threads] in *.
  assert (Hsame : Forall (call_inv P s) ths -> forall t',
            call_inv P s t' -> Forall (call_inv P s) (set_nth i t' ths))
    by (intros; apply Forall_set_nth; assumption).
  unfold thread_step. unfold pc_inv in Hpc. cbv zeta in Hpc.
  pose proof Hc as Hc0. unfold call_inv in Hc0. cbv zeta in Hc0.
  destruct Hc0 as (_ & _ & Hpcc).
  destruct (th_pc t) eqn:Et; cbn [shared threads].
  - (* L38 *)
    apply Hsame; [exact Hall |].
    destruct (resolved s =? 0); own_calls P Hc; exact I.
  - (* L39 *)
    apply Forall_set_nth.
    + eapply Forall_impl; [| exact Hall]. intros u. apply call_inv_stable. auto.
    + own_calls P Hc. exact I.
  - (* L41 *)
    apply Hsame; [exact Hall |]. own_calls P Hc. exact I.
  - (* L41_store *)
    destruct Hpc as (_ & _ & ->).
    apply Forall_set_nth.
    + eapply Forall_impl; [| exact Hall]. intros u. apply call_inv_stable.
      cbn [pfn]. auto.
    + own_calls P Hc. exact I.
  - (* L44 *)
    apply Hsame; [exact Hall |].
    destruct (is_null (pfn s)); own_calls P Hc; exact I.
  - (* L45 *)
    apply Hsame; [exact Hall |].
    destruct (is_null (dlopen P library_name (RTLD_LAZY P))); own_calls P Hc;
      exact I.
  - (* L47 *)
    apply Hsame; [exact Hall |]. own_calls P Hc. exact I.
  - (* L47_store *)
    destruct Hpc as (_ & _ & Hd & _ & _).
    apply Forall_set_nth.
    + eapply Forall_impl; [| exact Hall]. intros u. apply call_inv_stable.
      intros Hd'. contradiction.
    + own_calls P Hc. exact I.
  - (* L49 *)
    apply Hsame; [exact Hall |].
    destruct (is_null (pfn s)); own_calls P Hc; exact I.
  - (* L55 *)
    apply Hsame; [exact Hall |].
    destruct (is_null (pfn s)); own_calls P Hc; exact I.
  - (* L62 *)
    apply Hsame; [exact Hall |].
    assert (Hc' : call_inv P s (see t (pfn s))).
    { unfold call_inv in Hc |- *. cbv zeta in Hc |- *.
      cbn [th_events th_pc see]. exact Hc. }
    destruct (is_null (pfn s)) eqn:En; own_calls P Hc'; [exact I |].
    apply is_null_false in En. intros _. exact En.
  - (* L66 *)
    apply Hsame; [exact Hall |].
    destruct (is_null (ANativeWindow_fromSurface P (th_env t) (th_surface t)))
      eqn:Ew; own_calls P Hc; [exact I |].
    apply is_null_false in Ew. split; assumption.
  - (* L72 *)
    apply Hsame; [exact Hall |]. own_calls P Hc.
    destruct Hpcc as [Hw Hn]. repeat split; assumption.
  - (* L72_call *)
    destruct Hpcc as (Hw & Hf & Hn).
    destruct (is_null f) eqn:En; cbn [shared threads];
      (apply Hsame; [exact Hall |]); [exact Hc |].
    apply is_null_false in En.
    own_calls P Hc. exact Hw.
  - (* L73 *)
    apply Hsame; [exact Hall |]. own_calls P Hc. exact I.
  - (* L75 *)
    apply Hsame; [exact Hall |].
    destruct (result =? 0); own_calls P Hc; exact I.
  - (* Returned *)
    apply Hsame; [exact Hall | exact Hc].
Qed.

Lemma run_call_inv (P : Platform) (schedule : list nat) (c : Config) :
  invariant P c ->
  Forall (call_inv P (shared c)) (threads c) ->
  Forall (call_inv P (shared (run P schedule c))) (threads (run P schedule c)).
Proof.
  revert c. induction schedule as [| i rest IH]; intros c Inv H; cbn [run].
  - exact H.
  - apply IH; [apply step_invariant; exact Inv | apply step_call_inv; assumption].
Qed.

Lemma initial_call_inv (P : Platform) (calls : list (ptr * ptr * Z)) :
  Forall (call_inv P (shared (start initial calls)))
    (threads (start initial calls)).
Proof.
  unfold start. cbn [threads shared]. apply Forall_forall. intros t Ht.
  apply in_map_iff in Ht. destruct Ht as ([[env surface] d] & <- & _).
  unfold call_inv. cbn. repeat split; constructor.
Qed.

(** X7.  In every interleaving of K calls in a fresh process, each setter
    call a thread makes goes through what the two-step lookup finds or
    through a null pointer, never through anything else, and on a window
    that is not null; each release is of a window that is not null.  This
    holds of the calls that have returned (the events) and of the call a
    thread is making at line 72, the one through a null pointer
    included. *)
Theorem interleaved_calls_use_resolved_pointer
    (P : Platform) (calls : list (ptr * ptr * Z)) (schedule : list nat) :
  Forall (fun t =>
            Forall (fun e =>
                      match e with
                      | EvCall f w _ _ =>
                          (f = NULL \/ f = lookup_result P) /\ w <> NULL
                      | EvRelease w => w <> NULL
                      | _ => True
                      end)
              (th_events t))
    (threads (run P schedule (start initial calls))) /\
  Forall (fun t =>
            match th_pc t with
            | L72_call f w => (f = NULL \/ f = lookup_result P) /\ w <> NULL
            | _ => True
            end)
    (threads (run P schedule (start initial calls))).
Proof.
  pose proof (run_call_inv P schedule _ (initial_invariant P calls)
                (initial_call_inv P calls)) as H.
  split; (eapply Forall_impl; [| exact H]).
  - intros t (Ht & _). exact Ht.
  - intros t (_ & _ & Ht). destruct (th_pc t); try exact I. tauto.
Qed.

(** A process none of whose threads is about to call through a null
    pointer is alive. *)
Lemma alive_when_no_null_call (P : Platform) (s : Statics) (ths : list Thread) :
  dlsym P RTLD_DEFAULT symbol_name <> NULL ->
  Forall (call_inv P s) ths ->
  existsb crashed ths = false.
Proof.
  intros Hd H. induction H as [| t ths (_ & _ & Ht) _ IH]; [reflexivity |].
  cbn [existsb]. rewrite IH. unfold crashed.
  destruct (th_pc t); try reflexivity.
  destruct Ht as (_ & _ & Hf). specialize (Hf Hd).
  apply is_null_false in Hf. rewrite Hf. reflexivity.
Qed.

(** X8.  Where the default scope has the symbol, interleaved calls never
    go through a null pointer: in every interleaving of K calls in a fresh
    process, each setter call of each thread goes through the address the
    default-scope lookup returns, on a non-null window, each release is
    of a non-null window, and the process does not die at line 72. *)
Theorem interleaved_calls_are_null_free
    (P : Platform) (calls : list (ptr * ptr * Z)) (schedule : list nat) :
  dlsym P RTLD_DEFAULT symbol_name <> NULL ->
  Forall (fun t =>
            Forall (fun e =>
                      null_free e /\
                      calls_through (dlsym P RTLD_DEFAULT symbol_name) e)
              (th_events t))
    (threads (run P schedule (start initial calls))) /\
  dead (run P schedule (start initial calls)) = false.
Proof.
  intros Hd.
  pose proof (run_call_inv P schedule _ (initial_invariant P calls)
                (initial_call_inv P calls)) as H.
  split; [| exact (alive_when_no_null_call P _ _ Hd H)].
  eapply Forall_impl; [| exact H].
  intros t (Hok & Hnull & _).
  rewrite Forall_forall in *. intros e He.
  specialize (Hok e He). specialize (Hnull e He).
  split; [exact Hnull |].
  destruct e; try exact I. cbn in Hok, Hnull |- *.
  rewrite (lookup_result_default P Hd) in Hok. tauto.
Qed.

Lemma interleaved_calls_are_null_free_witness :
  Forall (fun t =>
            Forall (fun e =>
                      null_free e /\
                      calls_through (dlsym race_platform RTLD_DEFAULT symbol_name) e)
              (th_events t))
    (threads (run race_platform race_schedule (start initial race_calls))) /\
  dead (run race_platform race_schedule (start initial race_calls)) = false.
Proof.
  apply (interleaved_calls_are_null_free race_platform race_calls race_schedule).
  discriminate.
Defined.

(** ** Calls that do not overlap *)

Lemma nth_error_middle {A} (pre post : list A) (t : A) :
  nth_error (pre ++ t :: post) (length pre) = Some t.
Proof. induction pre as [| u pre IH]; [reflexivity | exact IH]. Qed.

Lemma set_nth_middle {A} (pre post : list A) (t x : A) :
  set_nth (length pre) x (pre ++ t :: post) = pre ++ x :: post.
Proof.
  induction pre as [| u pre IH]; [reflexivity |].
  cbn [app length set_nth]. rewrite IH. reflexivity.
Qed.

Lemma step_frame (P : Platform) (pre post : list Thread) (t : Thread)
    (s : Statics) :
  existsb crashed pre = false -> existsb crashed post = false ->
  step P (length pre) {| shared := s; threads := pre ++ t :: post |} =
    {| shared := snd (thread_step P t s);
       threads := pre ++ fst (thread_step P t s) :: post |}.
Proof.
  intros Hpre Hpost.
  assert (D : dead {| shared := s; threads := pre ++ t :: post |} = crashed t).
  { unfold dead. cbn [threads]. rewrite existsb_app. cbn [existsb].
    rewrite Hpre, Hpost. cbn [orb]. apply orb_false_r. }
  destruct (crashed t) eqn:C.
  - rewrite step_dead by exact D.
    rewrite (thread_step_crashed P t s C). reflexivity.
  - rewrite step_alive by exact D. cbn [threads shared].
    rewrite nth_error_middle, set_nth_middle. reflexivity.
Qed.

(** A thread that runs alone among threads that stand still does what it
    does as the only thread. *)
Lemma run_frame (P : Platform) (pre post : list Thread) (n : nat) (t : Thread)
    (s : Statics) :
  existsb crashed pre = false -> existsb crashed post = false ->
  exists t',
    run P (repeat 0%nat n) {| shared := s; threads := [t] |} =
      {| shared := shared (run P (repeat 0%nat n) {| shared := s; threads := [t] |});
         threads := [t'] |} /\
    run P (repeat (length pre) n) {| shared := s; threads := pre ++ t :: post |} =
      {| shared := shared (run P (repeat 0%nat n) {| shared := s; threads := [t] |});
         threads := pre ++ t' :: post |}.
Proof.
  intros Hpre Hpost. revert t s. induction n as [| n IH]; intros t s.
  - exists t. split; reflexivity.
  - rewrite !run_single.
    change (repeat (length pre) (S n))
      with (length pre :: repeat (length pre) n).
    cbn [run]. rewrite (step_frame P pre post t s Hpre Hpost).
    apply IH.
Qed.



Lemma thread_in_context (P : Platform) (thiz : ptr) (pre post : list Thread)
    (env surface : ptr) (d : Z) (s : Statics) :
  existsb crashed pre = false -> existsb crashed post = false ->
  exists t',
    run P (repeat (length pre) 16%nat)
      {| shared := s; threads := pre ++ spawn (env, surface, d) :: post |} =
      {| shared := statics_of (nativeSetBuffersDataSpace P env thiz surface d s);
         threads := pre ++ t' :: post |} /\
    status t' = Some (status_of (nativeSetBuffersDataSpace P env thiz surface d s)) /\
    th_events t' = events_of (nativeSetBuffersDataSpace P env thiz surface d s).
Proof.
  intros Hpre Hpost.
  destruct (run_frame P pre post 16 (spawn (env, surface, d)) s Hpre Hpost)
    as (t' & E1 & E2).
  exists t'.
  destruct (single_thread_agrees P env thiz surface d s) as (As & Ast & Aev).
  unfold start in As, Ast, Aev.
  change (map spawn [(env, surface, d)]) with [spawn (env, surface, d)]
    in As, Ast, Aev.
  rewrite <- As. split; [exact E2 |].
  rewrite E1 in Ast, Aev. cbn [threads map] in Ast, Aev.
  split; congruence.
Qed.

Lemma spawned_alive (todo : list (ptr * ptr * Z)) :
  existsb crashed (map spawn todo) = false.
Proof.
  induction todo as [| [[env surface] d] todo IH]; [reflexivity | exact IH].
Qed.

Lemma serial_from (P : Platform) (thiz : ptr) (todo : list (ptr * ptr * Z)) :
  forall (pre : list Thread) (s : Statics),
  existsb crashed pre = false ->
  exists finished,
    run P (concat (map (fun i => repeat i 16%nat)
                     (seq (length pre) (length todo))))
      {| shared := s; threads := pre ++ map spawn todo |} =
      {| shared := snd (run_calls (map (call_of P thiz) todo) s);
         threads := pre ++ finished |} /\
    map status finished =
      map (fun rt => Some (fst rt)) (fst (run_calls (map (call_of P thiz) todo) s)) /\
    map th_events finished =
      map snd (fst (run_calls (map (call_of P thiz) todo) s)).
Proof.
  induction todo as [| [[env surface] d] todo IH]; intros pre s Hpre.
  - exists []. cbn [length seq map concat run run_calls fst snd].
    rewrite app_nil_r. repeat split.
  - cbn [length seq map concat]. rewrite run_app.
    destruct (thread_in_context P thiz pre (map spawn todo) env surface d s
                Hpre (spawned_alive todo))
      as (t' & E & Est & Eev).
    assert (Hpre' : existsb crashed (pre ++ [t']) = false).
    { rewrite existsb_app, Hpre. cbn [existsb orb]. unfold crashed.
      unfold status in Est. destruct (th_pc t'); try discriminate Est.
      reflexivity. }
    rewrite E. clear E.
    cbn [run_calls]. unfold run_call at 1 2 3.
    cbn [call_of call_platform call_env call_thiz call_surface call_dataSpace].
    destruct (nativeSetBuffersDataSpace P env thiz surface d s) as [[r s1] ev].
    cbn [status_of statics_of events_of fst snd] in *.
    destruct (IH (pre ++ [t']) s1 Hpre') as (finished & F1 & F2 & F3).
    rewrite length_app in F1. cbn [length] in F1.
    rewrite Nat.add_1_r in F1. rewrite <- app_assoc in F1. cbn [app] in F1.
    rewrite F1.
    destruct (run_calls (map (call_of P thiz) todo) s1) as [rs s2].
    cbn [fst snd] in *.
    exists (t' :: finished). rewrite <- app_assoc. cbn [app map fst snd].
    rewrite Est, Eev, F2, F3. repeat split.
Qed.

(** X9.  Calls made by K threads one after the other, none overlapping
    another, are K calls of the sequential function: the same status and
    events for each call, in order, and the same statics at the end. *)
Theorem serial_threads_are_sequential_calls
    (P : Platform) (thiz : ptr) (calls : list (ptr * ptr * Z)) (s : Statics) :
  let c := run P (serial_schedule (length calls)) (start s calls) in
  let seq_run := run_calls (map (call_of P thiz) calls) s in
  shared c = snd seq_run /\
  map status (threads c) = map (fun rt => Some (fst rt)) (fst seq_run) /\
  map th_events (threads c) = map snd (fst seq_run).
Proof.
  intros c seq_run. subst c seq_run. unfold serial_schedule, start.
  destruct (serial_from P thiz calls [] s eq_refl) as (finished & E & F2 & F3).
  change (length (@nil Thread)) with 0%nat in E.
  change ([] ++ map spawn calls) with (map spawn calls) in E.
  rewrite E. cbn [shared threads app].
  repeat split; assumption.
Qed.

(** ** Null pointers *)


